(** * kong: leveraged DCA back-testing

    A shallow embedding of [src/utils.ts] and of the current engine of
    [src/index.ts] ([dca], [dcaWithLeverage], [simulateEveryLeverages]),
    with the properties of the position simulator and of the grid sweep;
    then the series filter [filterDataByDateAndHour] and the earlier,
    long-only engine kept in the first half of [src/index.ts], which is
    compared with the current one.

    Modelling conventions.
    - A JavaScript [number] is an exact rational or one of the special
      values [Infinity], [-Infinity], [NaN].  Arithmetic on finite values
      is exact (no rounding, no overflow, no signed zero: a zero divisor
      behaves as [+0]); the special values follow IEEE-754.
    - Array indices, the purchase cadence and the holding window are [nat].
    - Reading a property of [undefined] throws a [TypeError]; a run is an
      [outcome]: it returns, throws, or diverges.
    - The simulator state carries a ghost log [reads] of the array indices
      the code has evaluated ([data[k]]), most recent first. *)

From Stdlib Require Import ZArith QArith Qcanon Qround Qabs Lqa.
From Stdlib Require Import List Bool Arith Lia Sorted Permutation.
Import ListNotations.

(** ** JavaScript numbers *)

Module JsNumber.

Inductive number : Type :=
| Fin (q : Qc)
| PosInf
| NegInf
| NaN.

Definition num (z : Z) : number := Fin (Q2Qc (inject_Z z)).

Definition neg (x : number) : number :=
  match x with
  | Fin q => Fin (- q)%Qc
  | PosInf => NegInf
  | NegInf => PosInf
  | NaN => NaN
  end.

Definition add (x y : number) : number :=
  match x, y with
  | NaN, _ | _, NaN => NaN
  | Fin a, Fin b => Fin (a + b)%Qc
  | PosInf, NegInf | NegInf, PosInf => NaN
  | PosInf, _ | _, PosInf => PosInf
  | NegInf, _ | _, NegInf => NegInf
  end.

Definition sub (x y : number) : number := add x (neg y).

(** An infinity of sign [pos] scaled by a finite factor [q]. *)
Definition scaleInf (pos : bool) (q : Qc) : number :=
  match (q ?= 0)%Qc with
  | Eq => NaN
  | Gt => if pos then PosInf else NegInf
  | Lt => if pos then NegInf else PosInf
  end.

Definition mul (x y : number) : number :=
  match x, y with
  | NaN, _ | _, NaN => NaN
  | Fin a, Fin b => Fin (a * b)%Qc
  | PosInf, Fin b | Fin b, PosInf => scaleInf true b
  | NegInf, Fin b | Fin b, NegInf => scaleInf false b
  | PosInf, PosInf | NegInf, NegInf => PosInf
  | PosInf, NegInf | NegInf, PosInf => NegInf
  end.

Definition div (x y : number) : number :=
  match x, y with
  | NaN, _ | _, NaN => NaN
  | Fin a, Fin b =>
      match (b ?= 0)%Qc with
      | Eq => scaleInf true a            (* a / 0 *)
      | _ => Fin (a / b)%Qc
      end
  | Fin _, _ => Fin 0%Qc                 (* finite / +-Infinity *)
  | PosInf, Fin b =>
      match (b ?= 0)%Qc with Lt => NegInf | _ => PosInf end
  | NegInf, Fin b =>
      match (b ?= 0)%Qc with Lt => PosInf | _ => NegInf end
  | _, _ => NaN                          (* Infinity / Infinity *)
  end.

(** [x <= y]; every comparison with [NaN] is false. *)
Definition leb (x y : number) : bool :=
  match x, y with
  | NaN, _ | _, NaN => false
  | Fin a, Fin b => Qle_bool a b
  | NegInf, _ | _, PosInf => true
  | _, _ => false
  end.

(** [x >= y]. *)
Definition geb (x y : number) : bool := leb y x.

(** [x > 0], as [Array.prototype.sort] tests the value of a comparator. *)
Definition isPositive (x : number) : bool :=
  match x with
  | Fin q => match (q ?= 0)%Qc with Gt => true | _ => false end
  | PosInf => true
  | _ => false
  end.

(** [x.toFixed(digits)], represented by the number the resulting string
    denotes: the nearest multiple of [10^-digits], ties away from zero;
    at or above [10^21] in magnitude, and on the special values, the
    string is that of the number itself. *)
Definition toFixed (digits : nat) (x : number) : number :=
  match x with
  | Fin q =>
      let a := Qabs q in
      if Qle_bool (inject_Z (10 ^ 21)) a then Fin q
      else
        let s := inject_Z (10 ^ Z.of_nat digits) in
        let n := Qfloor (a * s + (1 # 2)) in
        let r := Q2Qc (inject_Z n / s) in
        Fin (if Qle_bool 0 q then r else (- r)%Qc)
  | _ => x
  end.

End JsNumber.
Export JsNumber.

Close Scope Q_scope.
Open Scope nat_scope.

(** ** Outcomes of a run *)

Inductive error : Type := TypeError.

Inductive outcome (A : Type) : Type :=
| Returns (a : A)
| Throws (e : error)
| Diverges.

Arguments Returns {A} a.
Arguments Throws {A} e.
Arguments Diverges {A}.

Definition bind {A B : Type} (m : outcome A) (f : A -> outcome B) : outcome B :=
  match m with
  | Returns a => f a
  | Throws e => Throws e
  | Diverges => Diverges
  end.

Notation "x <- m ;; k" := (bind m (fun x => k))
  (at level 61, m at next level, right associativity).

(** ** types.ts *)

Record PriceData : Type := mkPriceData {
  timestamp : number;
  open : number;
  high : number;
  low : number;
  close : number
}.

(** [candle.f]: a property read, which throws when [candle] is [undefined]. *)
Definition prop (f : PriceData -> number) (candle : option PriceData)
  : outcome number :=
  match candle with
  | Some c => Returns (f c)
  | None => Throws TypeError
  end.

(** ** utils.ts *)

Definition calculateRemainingAmount (profitOrLoss buyAmount : number) : number :=
  add profitOrLoss buyAmount.

Definition calculateExitSoldInUSD (btcBought : number) (profitTaken : bool)
    (profitLimitPrice : number) (exitCandle : option PriceData) : outcome number :=
  price <- (if profitTaken then Returns profitLimitPrice
            else prop close exitCandle) ;;
  Returns (mul btcBought price).

Definition calculateProfitOrLoss (exitSoldAmountInUSD btcBought entryPrice : number)
    (long : bool) : number :=
  if long
  then sub exitSoldAmountInUSD (mul btcBought entryPrice)
  else sub (mul btcBought entryPrice) exitSoldAmountInUSD.

Definition calculateLiquidationPrice (entryPrice leverage : number) (long : bool)
  : number :=
  let distance := div (num 100) leverage in
  let distanceInDollars := mul (div distance (num 100)) entryPrice in
  let liquidationPrice :=
    if long
    then sub entryPrice distanceInDollars
    else add entryPrice distanceInDollars in
  liquidationPrice.

Definition calculateProfitLimit (entryPrice profitInPercent leverage : number)
    (long : bool) : number :=
  if long
  then add entryPrice (div (div (mul entryPrice profitInPercent) (num 100)) leverage)
  else sub entryPrice (div (div (mul entryPrice profitInPercent) (num 100)) leverage).

Definition isLiquidated (candle : option PriceData) (liquidationPrice : number)
    (long : bool) : outcome bool :=
  if long
  then l <- prop low candle ;; Returns (leb l liquidationPrice)
  else h <- prop high candle ;; Returns (geb h liquidationPrice).

Definition isProfitTaken (candle : option PriceData) (profitLimitPrice : number)
    (long : bool) : outcome bool :=
  if long
  then h <- prop high candle ;; Returns (geb h profitLimitPrice)
  else l <- prop low candle ;; Returns (leb l profitLimitPrice).

(** ** index.ts: the baseline accumulator *)

(** The body of [for (let i = 0; i < data.length; i += buyFrequencyInHours)].
    The stride is a parameter and may be [0], in which case the loop of the
    source does not terminate: the model counts iterations down from [fuel]
    and reports [Diverges] when none is left. *)
Fixpoint dca_loop (fuel : nat) (data : list PriceData) (buyFrequencyInHours : nat)
    (buyAmount : number) (i : nat) (wallet : number) : outcome number :=
  match fuel with
  | O => Diverges
  | S fuel' =>
      if i <? length data then
        c <- prop close (nth_error data i) ;;
        let btcBought := div buyAmount c in
        dca_loop fuel' data buyFrequencyInHours buyAmount
                 (i + buyFrequencyInHours) (add wallet btcBought)
      else Returns wallet
  end.

Definition dca (data : list PriceData) (buyFrequencyInHours : nat)
    (buyAmount : number) : outcome number :=
  dca_loop (S (length data)) data buyFrequencyInHours buyAmount 0 (num 0).

(** ** index.ts: the position simulator *)

(** The four accumulators of [dcaWithLeverage], and the ghost log of the
    indices [k] at which [data[k]] has been evaluated. *)
Record State : Type := mkState {
  wallet : number;
  liquidationsCount : nat;
  takeProfitsCount : nat;
  closedPositionsCount : nat;
  reads : list nat
}.

Definition initState : State := mkState (num 0) 0 0 0 [].

Definition logRead (k : nat) (st : State) : State :=
  mkState (wallet st) (liquidationsCount st) (takeProfitsCount st)
          (closedPositionsCount st) (k :: reads st).

Definition incrLiquidations (st : State) : State :=
  mkState (wallet st) (S (liquidationsCount st)) (takeProfitsCount st)
          (closedPositionsCount st) (reads st).

Definition incrTakeProfits (st : State) : State :=
  mkState (wallet st) (liquidationsCount st) (S (takeProfitsCount st))
          (closedPositionsCount st) (reads st).

Definition incrClosedPositions (st : State) : State :=
  mkState (wallet st) (liquidationsCount st) (takeProfitsCount st)
          (S (closedPositionsCount st)) (reads st).

Definition addToWallet (x : number) (st : State) : State :=
  mkState (add (wallet st) x) (liquidationsCount st) (takeProfitsCount st)
          (closedPositionsCount st) (reads st).

(** The flags [liquidated] and [profitTaken] of one trade. *)
Record Flags : Type := mkFlags { liquidated : bool; profitTaken : bool }.

(** [for (let j = i + 1; j <= exitIndex; j++)]: the stride is 1, so the
    number of iterations still to run, [exitIndex + 1 - j], is the
    structural argument [remaining]. *)
Fixpoint monitor (data : list PriceData) (liquidationPrice profitLimitPrice : number)
    (long : bool) (remaining : nat) (j : nat) (st : State)
  : outcome (Flags * State) :=
  match remaining with
  | O => Returns (mkFlags false false, st)
  | S remaining' =>
      let st := logRead j st in
      isLiq <- isLiquidated (nth_error data j) liquidationPrice long ;;
      if isLiq then Returns (mkFlags true false, incrLiquidations st)
      else
        let st := logRead j st in
        isPt <- isProfitTaken (nth_error data j) profitLimitPrice long ;;
        if isPt then Returns (mkFlags false true, incrTakeProfits st)
        else monitor data liquidationPrice profitLimitPrice long
                     remaining' (S j) st
  end.

(** What follows the monitoring loop in the body of the entry loop. *)
Definition settle (data : list PriceData) (buyAmount : number) (long : bool)
    (entryPrice btcBought profitLimitPrice : number) (exitIndex : nat)
    (fl : Flags) (st : State) : outcome State :=
  let st := if negb (liquidated fl) && negb (profitTaken fl)
            then incrClosedPositions st else st in
  if negb (liquidated fl) then
    let st := logRead exitIndex st in
    exitSoldAmountInUSD <-
      calculateExitSoldInUSD btcBought (profitTaken fl) profitLimitPrice
                             (nth_error data exitIndex) ;;
    let profitOrLoss :=
      calculateProfitOrLoss exitSoldAmountInUSD btcBought entryPrice long in
    let remaningAmount := calculateRemainingAmount profitOrLoss buyAmount in
    let st := logRead exitIndex st in
    c <- prop close (nth_error data exitIndex) ;;
    Returns (addToWallet (div remaningAmount c) st)
  else Returns st.

(** One entry event: the body of the entry loop at index [i]. *)
Definition trade (data : list PriceData) (buyAmount : number)
    (tradeDurationInHours : nat) (leverage profitInPercent : number)
    (long : bool) (i : nat) (st : State) : outcome State :=
  let st := logRead i st in
  entryPrice <- prop open (nth_error data i) ;;
  let btcBought := div (mul buyAmount leverage) entryPrice in
  let liquidationPrice := calculateLiquidationPrice entryPrice leverage long in
  let profitLimitPrice :=
    calculateProfitLimit entryPrice profitInPercent leverage long in
  let exitIndex := i + tradeDurationInHours in
  r <- monitor data liquidationPrice profitLimitPrice long
               (exitIndex - i) (i + 1) st ;;
  settle data buyAmount long entryPrice btcBought profitLimitPrice exitIndex
         (fst r) (snd r).

(** [for (let i = 0; i + buyFrequencyInHours < data.length;
          i += buyFrequencyInHours)], with fuel as in [dca_loop]. *)
Fixpoint entries (fuel : nat) (data : list PriceData) (buyFrequencyInHours : nat)
    (buyAmount : number) (tradeDurationInHours : nat)
    (leverage profitInPercent : number) (long : bool) (i : nat) (st : State)
  : outcome State :=
  match fuel with
  | O => Diverges
  | S fuel' =>
      if i + buyFrequencyInHours <? length data then
        st' <- trade data buyAmount tradeDurationInHours leverage
                     profitInPercent long i st ;;
        entries fuel' data buyFrequencyInHours buyAmount tradeDurationInHours
                leverage profitInPercent long (i + buyFrequencyInHours) st'
      else Returns st
  end.

Definition dcaWithLeverage (data : list PriceData) (buyFrequencyInHours : nat)
    (buyAmount : number) (tradeDurationInHours : nat)
    (leverage profitInPercent : number) (long : bool) : outcome State :=
  entries (S (length data)) data buyFrequencyInHours buyAmount
          tradeDurationInHours leverage profitInPercent long 0 initState.

(** ** index.ts: the grid sweep *)

(** One row of [leverageResults].  The two [toFixed] strings are
    represented by the numbers they denote. *)
Record Row : Type := mkRow {
  Leverage : number;
  AutoTakeProfit : number;
  BTCAccumulated : number;
  BTCAccumulatedVsClassic : number;
  ClosedPositions : nat;
  Liquidations : nat;
  TakeProfits : nat
}.

(** [(wallet / dcaClassicWallet) * 100 - 100]. *)
Definition diffenceInPercentage (wallet dcaClassicWallet : number) : number :=
  sub (mul (div wallet dcaClassicWallet) (num 100)) (num 100).

(** The comparator handed to [sort]; the subtraction coerces both strings
    back to numbers. *)
Definition compareRows (a b : Row) : number :=
  sub (BTCAccumulatedVsClassic b) (BTCAccumulatedVsClassic a).

(** [Array.prototype.sort] is stable; it places [b] before [a] exactly when
    the comparator is positive on [(a, b)] (a [NaN] comparator counts as 0).
    For a consistent comparator this determines the result, which stable
    insertion computes. *)
Fixpoint insertRow (cmp : Row -> Row -> number) (x : Row) (l : list Row)
  : list Row :=
  match l with
  | [] => [x]
  | y :: l' =>
      if isPositive (cmp y x) then x :: y :: l'
      else y :: insertRow cmp x l'
  end.

Definition sortRows (cmp : Row -> Row -> number) (l : list Row) : list Row :=
  fold_left (fun sorted x => insertRow cmp x sorted) l [].

(** [for (let i = 5; i <= 100; i++)] and
    [for (let j = 50; j <= 1000; j += 50)]: the values the loop variables
    take. *)
Definition leverageValues : list Z := map Z.of_nat (seq 5 96).
Definition profitValues : list Z := map (fun k => 50 * Z.of_nat k)%Z (seq 1 20).

Section Sweep.

Variable filteredData : list PriceData.
Variable dcaClassicWallet : number.
Variable buyFrequencyInHours : nat.
Variable dcaAmount : number.
Variable longDurationInHours : nat.

(** The body of the two loops: one grid cell. *)
Definition cell (i j : Z) : outcome Row :=
  st <- dcaWithLeverage filteredData buyFrequencyInHours dcaAmount
                        longDurationInHours (num i) (num j) true ;;
  let diff := diffenceInPercentage (wallet st) dcaClassicWallet in
  Returns (mkRow (num i) (num j)
                 (toFixed 4 (wallet st)) (toFixed 2 diff)
                 (closedPositionsCount st) (liquidationsCount st)
                 (takeProfitsCount st)).

Fixpoint innerLoop (i : Z) (jvs : list Z) (leverageResults : list Row)
  : outcome (list Row) :=
  match jvs with
  | [] => Returns leverageResults
  | j :: jvs' =>
      row <- cell i j ;;
      innerLoop i jvs' (leverageResults ++ [row])
  end.

Fixpoint outerLoop (ivs : list Z) (leverageResults : list Row)
  : outcome (list Row) :=
  match ivs with
  | [] => Returns leverageResults
  | i :: ivs' =>
      leverageResults' <- innerLoop i profitValues leverageResults ;;
      outerLoop ivs' leverageResults'
  end.

(** The value is the table handed to [console.table]. *)
Definition simulateEveryLeverages : outcome (list Row) :=
  leverageResults <- outerLoop leverageValues [] ;;
  Returns (sortRows compareRows leverageResults).

End Sweep.

(** ** index.ts: filtering the series *)

(** [filterDataByDateAndHour]: [data.filter(entry =>
    moment(entry.timestamp).isSameOrAfter(startTime))].  The start time is
    parsed, and a timestamp compared with it, by the moment library: the
    test of a timestamp is the parameter [isSameOrAfterStart]. *)
Definition filterDataByDateAndHour (isSameOrAfterStart : number -> bool)
    (data : list PriceData) : list PriceData :=
  filter (fun entry => isSameOrAfterStart (timestamp entry)) data.

(** ** index.ts: the earlier engine

    The first half of [index.ts] holds the earlier, long-only engine, with
    its own calculators.  It tests [data[j]?.low] and [data[j]?.high], which
    are [undefined] beyond the series, and sells a time-expired position at
    the [open] of the exit bar. *)

Module Legacy.

Definition calculateLongLiquidationPrice (entryPrice leverage : number)
  : number :=
  let distance := div (num 100) leverage in
  let distanceInDollars := mul (div distance (num 100)) entryPrice in
  let liquidationPrice := sub entryPrice distanceInDollars in
  liquidationPrice.

Definition calculateProfitLimit (entryPrice profitInPercent leverage : number)
  : number :=
  add entryPrice (div (div (mul entryPrice profitInPercent) (num 100)) leverage).

(** [candle?.f]: [undefined] when [candle] is. *)
Definition optional (f : PriceData -> number) (candle : option PriceData)
  : option number :=
  match candle with
  | Some c => Some (f c)
  | None => None
  end.

(** The number a relational operator compares: [undefined] becomes [NaN]. *)
Definition toNumber (x : option number) : number :=
  match x with
  | Some a => a
  | None => NaN
  end.

Fixpoint monitor (data : list PriceData) (liquidationPrice profitLimitPrice : number)
    (remaining : nat) (j : nat) (st : State) : outcome (Flags * State) :=
  match remaining with
  | O => Returns (mkFlags false false, st)
  | S remaining' =>
      let st := logRead j st in
      if leb (toNumber (optional low (nth_error data j))) liquidationPrice
      then Returns (mkFlags true false, incrLiquidations st)
      else
        let st := logRead j st in
        if geb (toNumber (optional high (nth_error data j))) profitLimitPrice
        then Returns (mkFlags false true, incrTakeProfits st)
        else monitor data liquidationPrice profitLimitPrice remaining' (S j) st
  end.

Definition settle (data : list PriceData) (buyAmount : number)
    (entryPrice btcBought profitLimitPrice : number) (exitIndex : nat)
    (fl : Flags) (st : State) : outcome State :=
  let st := if negb (liquidated fl) && negb (profitTaken fl)
            then incrClosedPositions st else st in
  if negb (liquidated fl) then
    let st := if profitTaken fl then st else logRead exitIndex st in
    exitPrice <- (if profitTaken fl then Returns profitLimitPrice
                  else prop open (nth_error data exitIndex)) ;;
    let soldAmount := mul btcBought exitPrice in
    let profitOrLoss := sub soldAmount (mul btcBought entryPrice) in
    let remaningAmount := add profitOrLoss buyAmount in
    let st := logRead exitIndex st in
    c <- prop close (nth_error data exitIndex) ;;
    Returns (addToWallet (div remaningAmount c) st)
  else Returns st.

Definition trade (data : list PriceData) (buyAmount : number)
    (longDurationHours : nat) (leverage profitInPercent : number)
    (i : nat) (st : State) : outcome State :=
  let st := logRead i st in
  entryPrice <- prop open (nth_error data i) ;;
  let btcBought := div (mul buyAmount leverage) entryPrice in
  let liquidationPrice := calculateLongLiquidationPrice entryPrice leverage in
  let profitLimitPrice :=
    calculateProfitLimit entryPrice profitInPercent leverage in
  let exitIndex := i + longDurationHours in
  r <- monitor data liquidationPrice profitLimitPrice (exitIndex - i) (i + 1) st ;;
  settle data buyAmount entryPrice btcBought profitLimitPrice exitIndex
         (fst r) (snd r).

Fixpoint entries (fuel : nat) (data : list PriceData) (buyFrequencyInHours : nat)
    (buyAmount : number) (longDurationHours : nat)
    (leverage profitInPercent : number) (i : nat) (st : State)
  : outcome State :=
  match fuel with
  | O => Diverges
  | S fuel' =>
      if i + buyFrequencyInHours <? length data then
        st' <- trade data buyAmount longDurationHours leverage
                     profitInPercent i st ;;
        entries fuel' data buyFrequencyInHours buyAmount longDurationHours
                leverage profitInPercent (i + buyFrequencyInHours) st'
      else Returns st
  end.

Definition dcaWithLeverage (data : list PriceData) (buyFrequencyInHours : nat)
    (buyAmount : number) (longDurationHours : nat)
    (leverage profitInPercent : number) : outcome State :=
  entries (S (length data)) data buyFrequencyInHours buyAmount
          longDurationHours leverage profitInPercent 0 initState.

End Legacy.

(** * Vocabulary of the properties *)

(** The two conditions a bar is tested for, as comparisons on the candle. *)
Definition breachesLiquidation (c : PriceData) (liquidationPrice : number)
    (long : bool) : bool :=
  if long then leb (low c) liquidationPrice else geb (high c) liquidationPrice.

Definition reachesProfitLimit (c : PriceData) (profitLimitPrice : number)
    (long : bool) : bool :=
  if long then geb (high c) profitLimitPrice else leb (low c) profitLimitPrice.

(** The terminal state of a trade, read off its two flags the way the code
    tests them after the loop. *)
Inductive Resolution : Type := LIQUIDATED | PROFIT_TAKEN | TIME_EXPIRED.

Definition resolution (fl : Flags) : Resolution :=
  if liquidated fl then LIQUIDATED
  else if profitTaken fl then PROFIT_TAKEN
  else TIME_EXPIRED.

(** A bar on which neither condition holds. *)
Definition quiet (data : list PriceData) (liquidationPrice profitLimitPrice : number)
    (long : bool) (j : nat) : Prop :=
  exists c, nth_error data j = Some c
            /\ breachesLiquidation c liquidationPrice long = false
            /\ reachesProfitLimit c profitLimitPrice long = false.

(** The settlement of the entry event at index [i], between the state [st]
    before it and the state [st'] after it: the trade resolves by its scan
    of the window, a LIQUIDATED trade leaves the wallet as it was, and any
    other trade adds [remainingCapital / data[exitIndex].close] to it. *)
Definition settled (data : list PriceData) (buyAmount : number) (dur : nat)
    (leverage profitInPercent : number) (long : bool) (i : nat)
    (st st' : State) : Prop :=
  exists (entry : PriceData) (fl : Flags) (stm : State),
    nth_error data i = Some entry
    /\ let entryPrice := open entry in
       let unitsAcquired := div (mul buyAmount leverage) entryPrice in
       let profitLimitPrice :=
         calculateProfitLimit entryPrice profitInPercent leverage long in
       monitor data (calculateLiquidationPrice entryPrice leverage long)
               profitLimitPrice long dur (i + 1) (logRead i st)
         = Returns (fl, stm)
       /\ match resolution fl with
          | LIQUIDATED => wallet st' = wallet st
          | r =>
              exists exitCandle : PriceData,
                nth_error data (i + dur) = Some exitCandle
                /\ let exitValueInCapital :=
                     mul unitsAcquired
                         (match r with
                          | PROFIT_TAKEN => profitLimitPrice
                          | _ => close exitCandle
                          end) in
                   let profitOrLoss :=
                     if long
                     then sub exitValueInCapital (mul unitsAcquired entryPrice)
                     else sub (mul unitsAcquired entryPrice) exitValueInCapital in
                   let remainingCapital := add profitOrLoss buyAmount in
                   wallet st'
                   = add (wallet st)
                         (div remainingCapital (close exitCandle))
          end.


(** The entry events of a series of [len] bars: the multiples [i] of the
    cadence with [i + buyFrequencyInHours < len]. *)
Definition entryEvents (len buyFrequencyInHours : nat) : list nat :=
  filter (fun i => (i mod buyFrequencyInHours =? 0)
                   && (i + buyFrequencyInHours <? len))
         (seq 0 len).

(** The exit index of the entry at [i] lies within the series. *)
Definition exitResolvable (len tradeDurationInHours i : nat) : bool :=
  i + tradeDurationInHours <? len.

(** The sum of the three outcome counts. *)
Definition outcomesCount (st : State) : nat :=
  liquidationsCount st + takeProfitsCount st + closedPositionsCount st.

(** The indices the entry loop visits, by the recursion of [entries]. *)
Fixpoint loopIndices (fuel freq len i : nat) : list nat :=
  match fuel with
  | O => []
  | S fuel' =>
      if i + freq <? len then i :: loopIndices fuel' freq len (i + freq)
      else []
  end.

(** The three counts of [st] add up to the number of entry events of the
    series, and that is the number of those with their exit index within
    the series when the window is no longer than the cadence. *)
Definition countsEntryEvents (data : list PriceData) (freq dur : nat)
    (st : State) : Prop :=
  liquidationsCount st + takeProfitsCount st + closedPositionsCount st
  = length (entryEvents (length data) freq)
  /\ (dur <= freq ->
      length (entryEvents (length data) freq)
      = length (filter (exitResolvable (length data) dur)
                       (entryEvents (length data) freq))).

(** [a] may stand before [b] in the table. *)
Definition ranksBefore (a b : Row) : Prop :=
  geb (BTCAccumulatedVsClassic a) (BTCAccumulatedVsClassic b) = true.

(** The stored percentage of [r] is a number. *)
Definition numeric (r : Row) : Prop := BTCAccumulatedVsClassic r <> NaN.

(** The cell of the grid at a pair (leverage, profit target). *)
Definition cellOf (filteredData : list PriceData) (dcaClassicWallet : number)
    (buyFrequencyInHours : nat) (dcaAmount : number)
    (longDurationInHours : nat) (ij : Z * Z) : outcome Row :=
  cell filteredData dcaClassicWallet buyFrequencyInHours dcaAmount
       longDurationInHours (fst ij) (snd ij).

(** The row [r] is the one the sweep computes for the cell [ij]. *)
Definition cellRow (filteredData : list PriceData) (dcaClassicWallet : number)
    (buyFrequencyInHours : nat) (dcaAmount : number)
    (longDurationInHours : nat) (ij : Z * Z) (r : Row) : Prop :=
  exists st : State,
    dcaWithLeverage filteredData buyFrequencyInHours dcaAmount
                    longDurationInHours (num (fst ij)) (num (snd ij)) true
    = Returns st
    /\ Leverage r = num (fst ij)
    /\ AutoTakeProfit r = num (snd ij)
    /\ BTCAccumulatedVsClassic r
       = toFixed 2 (sub (mul (div (wallet st) dcaClassicWallet) (num 100))
                        (num 100))
    /\ (forall q : Qc,
          q <> 0%Qc -> wallet st = Fin q -> dcaClassicWallet = Fin q ->
          BTCAccumulatedVsClassic r = num 0).

(** The table [rows] holds one row per cell of the grid, and is in
    descending order of the stored percentage when every stored percentage
    is a number. *)
Definition rankedTable (filteredData : list PriceData)
    (dcaClassicWallet : number) (buyFrequencyInHours : nat)
    (dcaAmount : number) (longDurationInHours : nat) (rows : list Row) : Prop :=
  exists unsorted : list Row,
    Forall2 (cellRow filteredData dcaClassicWallet buyFrequencyInHours
                     dcaAmount longDurationInHours)
            (list_prod leverageValues profitValues) unsorted
    /\ Permutation unsorted rows
    /\ (Forall numeric rows -> StronglySorted ranksBefore rows).

(** ** Concrete series *)

(** A candle with integer prices [open], [high], [low], [close]; the
    timestamp plays no part in the simulation. *)
Definition candle (o h l c : Z) : PriceData :=
  mkPriceData (num 0) (num o) (num h) (num l) (num c).

(** The series of the end-to-end scenario: opens 100, 110, 90, 120 and
    closes 105, 100, 95, 130. *)
Definition scenarioSeries : list PriceData :=
  [candle 100 106 99 105; candle 110 110 100 100;
   candle 90 96 89 95; candle 120 131 119 130].

(** The state after the first trade of the scenario: 2 units bought back,
    one profit taken. *)
Definition scenarioAfterFirstTrade : State :=
  mkState (num 2) 0 1 0 [1; 1; 1; 1; 0].

(** A three-bar series on which, at leverage 100, every bar after an entry
    touches the liquidation price 99. *)
Definition tailSeries : list PriceData :=
  [candle 100 100 99 100; candle 100 100 99 100; candle 100 100 99 100].

(** The states after the first trade and after the run on [tailSeries], at
    leverage 100 with a window of 5 bars. *)
Definition tailAfterFirstTrade : State := mkState (num 0) 1 0 0 [1; 0].

Definition tailAfterRun : State := mkState (num 0) 2 0 0 [2; 1; 1; 0].

(** A two-bar series on which every cell of the grid is time-expired, with
    a result that grows slowly with the leverage. *)
Definition rankSeries : list PriceData :=
  [candle 100000 100000 100000 100000; candle 100001 100002 99999 100001].

(** Its baseline, the table of its sweep, and the state of its cell at a
    given leverage and a profit target of 50. *)
Definition rankBaseline : number :=
  match dca rankSeries 1 (num 100) with Returns w => w | _ => NaN end.

Definition rankTable : list Row :=
  match simulateEveryLeverages rankSeries rankBaseline 1 (num 100) 1 with
  | Returns rows => rows
  | _ => []
  end.

Definition rankState (leverage : Z) : State :=
  match dcaWithLeverage rankSeries 1 (num 100) 1 (num leverage) (num 50) true with
  | Returns st => st
  | _ => initState
  end.

(** A series whose second bar meets both conditions of a long trade with
    liquidation price 90 and profit limit 110. *)
Definition tieSeries : list PriceData :=
  [candle 100 100 100 100; candle 100 120 80 100].

(** ** Vocabulary of the further properties *)

(** The rational [z], canonical. *)
Definition qc (z : Z) : Qc := Q2Qc (inject_Z z).

(** The indices at which [dca] buys: the multiples of the cadence below the
    length of the series; and the candles there (every index is within the
    series, the default candle is never used). *)
Definition purchaseIndices (len buyFrequencyInHours : nat) : list nat :=
  filter (fun i => i mod buyFrequencyInHours =? 0) (seq 0 len).

Definition purchases (data : list PriceData) (buyFrequencyInHours : nat)
  : list PriceData :=
  map (fun i => nth i data (candle 0 0 0 0))
      (purchaseIndices (length data) buyFrequencyInHours).


(** Every index the simulator has evaluated is within the series. *)
Definition readsWithin (data : list PriceData) (st : State) : Prop :=
  Forall (fun k => k < length data) (reads st).

(** Equality of two numbers, and of the stored percentage of a row with a
    given number. *)
Definition numEqb (x y : number) : bool :=
  match x, y with
  | Fin a, Fin b => Qeq_bool a b
  | PosInf, PosInf | NegInf, NegInf | NaN, NaN => true
  | _, _ => false
  end.

Definition storedEqb (v : number) (r : Row) : bool :=
  numEqb (BTCAccumulatedVsClassic r) v.

Definition isNumeric (r : Row) : bool :=
  negb (numEqb (BTCAccumulatedVsClassic r) NaN).

(** [toFixed] on a finite value, in [Q]: the scale [10^digits], the bound
    [10^21] from which the value is printed as it is, the magnitude
    rounded half up, and the rounded value. *)
Definition scale (digits : nat) : Q := inject_Z (10 ^ Z.of_nat digits).

Definition threshold : Q := inject_Z (10 ^ 21).

Definition roundedMagnitude (digits : nat) (u : Q) : Q :=
  (inject_Z (Qfloor (u * scale digits + (1 # 2))) / scale digits)%Q.

Definition roundQ (digits : nat) (q : Q) : Q :=
  if Qle_bool threshold (Qabs q) then q
  else if Qle_bool 0 q then roundedMagnitude digits (Qabs q)
       else (- roundedMagnitude digits (Qabs q))%Q.

(** Two rows store the same percentage whenever the percentage the first
    was rounded from is at most the one the second was rounded from. *)
Definition roundsAlikeWhenOutOfOrder (r1 r2 : Row) : Prop :=
  forall d1 d2 : number,
    BTCAccumulatedVsClassic r1 = toFixed 2 d1 ->
    BTCAccumulatedVsClassic r2 = toFixed 2 d2 ->
    leb d1 d2 = true ->
    BTCAccumulatedVsClassic r1 = BTCAccumulatedVsClassic r2.

(** The earlier and the current engine have counted the same outcomes, and
    hold the same wallet as long as no trade has time-expired. *)
Definition sameCounts (legacy current : State) : Prop :=
  liquidationsCount legacy = liquidationsCount current
  /\ takeProfitsCount legacy = takeProfitsCount current
  /\ closedPositionsCount legacy = closedPositionsCount current
  /\ (closedPositionsCount current = 0 -> wallet legacy = wallet current).

(** Both engines return, with [sameCounts], or both throw, or both
    diverge. *)
Definition sameOutcome (legacy current : outcome State) : Prop :=
  match legacy, current with
  | Returns s, Returns s' => sameCounts s s'
  | Throws _, Throws _ => True
  | Diverges, Diverges => True
  | _, _ => False
  end.

(** Once a bar passes the test, every later bar of the series does. *)
Definition passesFromSomeBarOn (keep : number -> bool)
    (data : list PriceData) : Prop :=
  forall i j ci cj,
    i <= j ->
    nth_error data i = Some ci ->
    nth_error data j = Some cj ->
    keep (timestamp ci) = true ->
    keep (timestamp cj) = true.

(** ** Further concrete inputs *)

(** The closes of [scenarioSeries] under other opens, highs and lows. *)
Definition scenarioCloses : list PriceData :=
  [candle 1 2 1 105; candle 1 2 1 100; candle 1 2 1 95; candle 1 2 1 130].

(** A bar whose low, 89, is under the long liquidation price at leverage 10
    for an entry at 100. *)
Definition lowBar : PriceData := candle 100 100 89 95.

(** Two rows in descending order of their stored percentage. *)
Definition rankedPair : list Row :=
  [mkRow (num 5) (num 50) (num 1) (num 2) 0 0 1;
   mkRow (num 6) (num 50) (num 1) (num 1) 0 0 1].

(** Three hourly bars, and the test of a timestamp against the second. *)
Definition stampedSeries : list PriceData :=
  [mkPriceData (num 1) (num 100) (num 100) (num 100) (num 100);
   mkPriceData (num 2) (num 100) (num 100) (num 100) (num 100);
   mkPriceData (num 3) (num 100) (num 100) (num 100) (num 100)].

Definition fromSecondBar (t : number) : bool := geb t (num 2).

(** * Properties *)

(** ** Arithmetic of [number] *)

Lemma Qc_compare_eq (a : Qc) : (a ?= 0)%Qc = Eq -> a = 0%Qc.
Proof. intro H. now apply Qceq_alt. Qed.

Lemma neg_add (x y : number) : neg (add x y) = add (neg x) (neg y).
Proof.
  destruct x, y; simpl; try reflexivity.
  f_equal. ring.
Qed.

Lemma neg_neg (x : number) : neg (neg x) = x.
Proof. destruct x; simpl; try reflexivity. f_equal. ring. Qed.

Lemma add_comm (x y : number) : add x y = add y x.
Proof. destruct x, y; simpl; try reflexivity. f_equal. ring. Qed.

Lemma sub_antisym (x y : number) : sub y x = neg (sub x y).
Proof.
  unfold sub. rewrite neg_add, neg_neg. apply add_comm.
Qed.

(** ** The price-level calculators *)

(** C10: the profit or loss of a short position is the exact negation of
    that of a long position, whatever the exit value, the unit count and
    the entry price. *)
Theorem calculateProfitOrLoss_short_is_neg_long
    (exitSoldAmountInUSD btcBought entryPrice : number) :
  calculateProfitOrLoss exitSoldAmountInUSD btcBought entryPrice false
  = neg (calculateProfitOrLoss exitSoldAmountInUSD btcBought entryPrice true).
Proof.
  unfold calculateProfitOrLoss. apply sub_antisym.
Qed.




(** C6: at entry price 10000, profit target 200 percent and leverage 20
    the profit limit is 11000 for a long and 9000 for a short position; in
    general it is the entry price plus (long) or minus (short)
    [entryPrice * profitTargetPercent / 100 / leverage]. *)
Theorem calculateProfitLimit_spec :
  calculateProfitLimit (num 10000) (num 200) (num 20) true = num 11000
  /\ calculateProfitLimit (num 10000) (num 200) (num 20) false = num 9000
  /\ forall (entryPrice profitTargetPercent leverage : number) (long : bool),
       calculateProfitLimit entryPrice profitTargetPercent leverage long
       = (if long then add else sub)
           entryPrice
           (div (div (mul entryPrice profitTargetPercent) (num 100)) leverage).
Proof.
  split; [| split].
  - apply (f_equal Fin), Qc_is_canon. reflexivity.
  - apply (f_equal Fin), Qc_is_canon. reflexivity.
  - intros e p l long. destruct long; reflexivity.
Qed.

(** ** Outcomes *)

Lemma bind_Returns_inv {A B : Type} (m : outcome A) (f : A -> outcome B) (b : B) :
  bind m f = Returns b -> exists a, m = Returns a /\ f a = Returns b.
Proof.
  destruct m as [a | e |]; simpl; intro H; try discriminate.
  exists a. split; [reflexivity | exact H].
Qed.

Lemma prop_Returns_inv (f : PriceData -> number) (candle : option PriceData)
    (x : number) :
  prop f candle = Returns x -> exists c, candle = Some c /\ x = f c.
Proof.
  destruct candle as [c |]; simpl; intro H; [| discriminate].
  exists c. split; [reflexivity | congruence].
Qed.

(** [bind_inv H as x Hx]: from [H : bind m f = Returns b], the value [x]
    of [m], with [Hx : m = Returns x], and [H : f x = Returns b]. *)
Tactic Notation "bind_inv" hyp(H) "as" simple_intropattern(x) ident(Hx) :=
  apply bind_Returns_inv in H; destruct H as (x & Hx & H).

Lemma error_unique (e e' : error) : e = e'.
Proof. destruct e, e'. reflexivity. Qed.

(** ** The monitoring loop *)

Lemma isLiquidated_Some (c : PriceData) (p : number) (long : bool) :
  isLiquidated (Some c) p long = Returns (breachesLiquidation c p long).
Proof. destruct long; reflexivity. Qed.

Lemma isProfitTaken_Some (c : PriceData) (p : number) (long : bool) :
  isProfitTaken (Some c) p long = Returns (reachesProfitLimit c p long).
Proof. destruct long; reflexivity. Qed.

Lemma isLiquidated_None (p : number) (long : bool) :
  isLiquidated None p long = Throws TypeError.
Proof. destruct long; reflexivity. Qed.

Lemma isProfitTaken_None (p : number) (long : bool) :
  isProfitTaken None p long = Throws TypeError.
Proof. destruct long; reflexivity. Qed.

Lemma monitor_step_quiet data lp pp long remaining j st :
  quiet data lp pp long j ->
  monitor data lp pp long (S remaining) j st
  = monitor data lp pp long remaining (S j) (logRead j (logRead j st)).
Proof.
  intros (c & Hc & Hl & Hp). simpl.
  rewrite Hc, isLiquidated_Some, isProfitTaken_Some. simpl.
  rewrite Hl, Hp. reflexivity.
Qed.

(** C3: let bar [j + k] of the monitored window be the first on which the
    liquidation or the profit-target condition holds.  The scan stops on
    that bar, and the trade resolves as LIQUIDATED when the liquidation
    condition holds there - also when the profit-target condition holds on
    the same bar - and as PROFIT_TAKEN otherwise. *)
Theorem monitor_first_hit_liquidation_wins
    (data : list PriceData) (liquidationPrice profitLimitPrice : number)
    (long : bool) (window j k : nat) (st : State) (c : PriceData) :
  k < window ->
  nth_error data (j + k) = Some c ->
  (forall k', k' < k ->
     quiet data liquidationPrice profitLimitPrice long (j + k')) ->
  breachesLiquidation c liquidationPrice long
    || reachesProfitLimit c profitLimitPrice long = true ->
  exists fl st',
    monitor data liquidationPrice profitLimitPrice long window j st
      = Returns (fl, st')
    /\ resolution fl
       = (if breachesLiquidation c liquidationPrice long
          then LIQUIDATED else PROFIT_TAKEN)
    /\ (breachesLiquidation c liquidationPrice long = true ->
        reachesProfitLimit c profitLimitPrice long = true ->
        resolution fl = LIQUIDATED /\ resolution fl <> PROFIT_TAKEN)
    /\ hd_error (reads st') = Some (j + k)
    /\ liquidationsCount st'
       = liquidationsCount st
         + (if breachesLiquidation c liquidationPrice long then 1 else 0)
    /\ takeProfitsCount st'
       = takeProfitsCount st
         + (if breachesLiquidation c liquidationPrice long then 0 else 1)
    /\ closedPositionsCount st' = closedPositionsCount st
    /\ wallet st' = wallet st.
Proof.
  revert window j st.
  induction k as [| k IH]; intros window j st Hk Hc Hquiet Hhit.
  - destruct window as [| window]; [lia |].
    rewrite Nat.add_0_r in *. simpl.
    rewrite Hc, isLiquidated_Some, isProfitTaken_Some. simpl.
    destruct (breachesLiquidation c liquidationPrice long) eqn:Hl.
    + eexists _, _. split; [reflexivity |].
      simpl. repeat split; try lia; try reflexivity; try discriminate.
    + simpl in Hhit. rewrite Hhit.
      eexists _, _. split; [reflexivity |].
      simpl. repeat split; try lia; try reflexivity; try discriminate.
  - destruct window as [| window]; [lia |].
    rewrite monitor_step_quiet.
    2:{ specialize (Hquiet 0). rewrite Nat.add_0_r in Hquiet.
        apply Hquiet. lia. }
    destruct (IH window (S j) (logRead j (logRead j st)))
      as (fl & st' & Hm & Hres & Htie & Hrd & Hlc & Htc & Hcc & Hw).
    + lia.
    + rewrite <- Hc. f_equal. lia.
    + intros k' Hk'. replace (S j + k') with (j + S k') by lia.
      apply Hquiet. lia.
    + exact Hhit.
    + exists fl, st'. split; [exact Hm |].
      replace (j + S k) with (S j + k) by lia.
      repeat split; try assumption; try apply Htie; assumption.
Qed.

(** On [tieSeries] the only monitored bar meets both conditions, and the
    trade is liquidated on it. *)
Lemma monitor_first_hit_liquidation_wins_witness :
  0 < 1
  /\ nth_error tieSeries (1 + 0) = Some (candle 100 120 80 100)
  /\ breachesLiquidation (candle 100 120 80 100) (num 90) true = true
  /\ reachesProfitLimit (candle 100 120 80 100) (num 110) true = true
  /\ exists fl st',
       monitor tieSeries (num 90) (num 110) true 1 1 initState
       = Returns (fl, st')
       /\ resolution fl = LIQUIDATED
       /\ hd_error (reads st') = Some 1.
Proof.
  split; [lia |]. split; [reflexivity |].
  split; [reflexivity |]. split; [reflexivity |].
  destruct (monitor_first_hit_liquidation_wins
              tieSeries (num 90) (num 110) true 1 1 0 initState
              (candle 100 120 80 100))
    as (fl & st' & Hm & Hres & _ & Hrd & _).
  - lia.
  - reflexivity.
  - intros k' Hk'. lia.
  - reflexivity.
  - exists fl, st'. split; [exact Hm |]. split; [exact Hres | exact Hrd].
Defined.

(** What a completed scan has done to the state: exactly one of the three
    ways out of the loop. *)
Lemma monitor_Returns_inv data lp pp long remaining j st fl st' :
  monitor data lp pp long remaining j st = Returns (fl, st') ->
  wallet st' = wallet st
  /\ closedPositionsCount st' = closedPositionsCount st
  /\ ((fl = mkFlags true false
       /\ liquidationsCount st' = S (liquidationsCount st)
       /\ takeProfitsCount st' = takeProfitsCount st)
      \/ (fl = mkFlags false true
          /\ liquidationsCount st' = liquidationsCount st
          /\ takeProfitsCount st' = S (takeProfitsCount st))
      \/ (fl = mkFlags false false
          /\ liquidationsCount st' = liquidationsCount st
          /\ takeProfitsCount st' = takeProfitsCount st
          /\ forall k, k < remaining -> quiet data lp pp long (j + k))).
Proof.
  revert j st.
  induction remaining as [| remaining IH]; intros j st H.
  - simpl in H. inversion H; subst.
    repeat split. right; right. repeat split. intros k Hk. lia.
  - simpl in H.
    destruct (nth_error data j) as [c |] eqn:Hc.
    2:{ rewrite isLiquidated_None in H. discriminate. }
    rewrite isLiquidated_Some, isProfitTaken_Some in H. simpl in H.
    destruct (breachesLiquidation c lp long) eqn:Hl.
    { inversion H; subst. simpl. repeat split. left. repeat split. }
    simpl in H.
    destruct (reachesProfitLimit c pp long) eqn:Hp.
    { inversion H; subst. simpl. repeat split. right; left. repeat split. }
    apply IH in H. simpl in H.
    destruct H as (Hw & Hcc & Hcases).
    split; [exact Hw |]. split; [exact Hcc |].
    destruct Hcases as [(? & ? & ?) | [(? & ? & ?) | (? & ? & ? & Hq)]].
    + left. repeat split; assumption.
    + right; left. repeat split; assumption.
    + right; right. repeat split; try assumption.
      intros k Hk. destruct k as [| k].
      * rewrite Nat.add_0_r. exists c. repeat split; assumption.
      * replace (j + S k) with (S j + k) by lia. apply Hq. lia.
Qed.

(** ** One entry event *)

Lemma trade_unfold data buyAmount dur leverage pip long i st :
  trade data buyAmount dur leverage pip long i st
  = (entryPrice <- prop open (nth_error data i) ;;
     r <- monitor data (calculateLiquidationPrice entryPrice leverage long)
                  (calculateProfitLimit entryPrice pip leverage long) long
                  dur (i + 1) (logRead i st) ;;
     settle data buyAmount long entryPrice
            (div (mul buyAmount leverage) entryPrice)
            (calculateProfitLimit entryPrice pip leverage long)
            (i + dur) (fst r) (snd r)).
Proof.
  unfold trade. replace (i + dur - i) with dur by lia. reflexivity.
Qed.

Lemma settle_liquidated data buyAmount long entryPrice btcBought pp exitIndex
    fl st :
  liquidated fl = true ->
  settle data buyAmount long entryPrice btcBought pp exitIndex fl st
  = Returns st.
Proof. intro H. unfold settle. rewrite H. reflexivity. Qed.

Lemma settle_not_liquidated data buyAmount long entryPrice btcBought pp
    exitIndex fl st st' :
  liquidated fl = false ->
  settle data buyAmount long entryPrice btcBought pp exitIndex fl st
  = Returns st' ->
  exists exitCandle,
    nth_error data exitIndex = Some exitCandle
    /\ wallet st'
       = add (wallet st)
             (div (add (calculateProfitOrLoss
                          (mul btcBought
                               (if profitTaken fl then pp
                                else close exitCandle))
                          btcBought entryPrice long)
                       buyAmount)
                  (close exitCandle))
    /\ liquidationsCount st' = liquidationsCount st
    /\ takeProfitsCount st' = takeProfitsCount st
    /\ closedPositionsCount st'
       = closedPositionsCount st + (if profitTaken fl then 0 else 1).
Proof.
  intros Hl H. unfold settle in H. rewrite Hl in H. simpl in H.
  destruct (nth_error data exitIndex) as [c |] eqn:Hc.
  - exists c. split; [reflexivity |].
    unfold calculateExitSoldInUSD in H.
    destruct (profitTaken fl); simpl in H; inversion H; subst; simpl;
      repeat split; lia.
  - exfalso. unfold calculateExitSoldInUSD in H.
    destruct (profitTaken fl); simpl in H; discriminate.
Qed.

(** C4: a trade that resolves as PROFIT_TAKEN or TIME_EXPIRED has exit
    value [unitsAcquired * (profitLimitPrice] if profit-taken, else
    [data[exitIndex].close)], its remaining capital is the
    direction-adjusted profit or loss plus [buyAmount], and exactly
    [remainingCapital / data[exitIndex].close] units are added to the
    wallet; a LIQUIDATED trade adds nothing. *)
Theorem trade_settlement
    (data : list PriceData) (buyAmount : number) (dur : nat)
    (leverage profitInPercent : number) (long : bool) (i : nat)
    (st st' : State) :
  trade data buyAmount dur leverage profitInPercent long i st = Returns st' ->
  settled data buyAmount dur leverage profitInPercent long i st st'.
Proof.
  intro H. rewrite trade_unfold in H.
  bind_inv H as entryPrice He.
  apply prop_Returns_inv in He. destruct He as (entry & Hentry & ->).
  bind_inv H as [fl stm] Hm.
  simpl in H.
  exists entry, fl, stm. split; [exact Hentry |]. cbv zeta.
  split; [exact Hm |].
  apply monitor_Returns_inv in Hm.
  destruct Hm as (Hw & _ & Hcases). simpl in Hw.
  destruct Hcases as [(-> & _) | [(-> & _) | (-> & _)]].
  - rewrite settle_liquidated in H by reflexivity.
    inversion H; subst. exact Hw.
  - apply settle_not_liquidated in H; [| reflexivity].
    destruct H as (c & Hc & Hwal & _). exists c. split; [exact Hc |].
    rewrite Hwal, Hw. unfold calculateProfitOrLoss. destruct long; reflexivity.
  - apply settle_not_liquidated in H; [| reflexivity].
    destruct H as (c & Hc & Hwal & _). exists c. split; [exact Hc |].
    rewrite Hwal, Hw. unfold calculateProfitOrLoss. destruct long; reflexivity.
Qed.

(** The end-to-end scenario: entry at bar 0 at 100, profit taken at 110 on
    bar 1, remaining capital 200 bought back at the close 100 of bar 1. *)
Lemma scenario_first_trade :
  trade scenarioSeries (num 100) 1 (num 10) (num 100) true 0 initState
  = Returns scenarioAfterFirstTrade.
Proof.
  unfold scenarioAfterFirstTrade. vm_compute.
  apply (f_equal Returns).
  apply (f_equal (fun w => mkState w 0 1 0 [1; 1; 1; 1; 0])).
  apply (f_equal Fin), Qc_is_canon. reflexivity.
Qed.

(** The first trade of the end-to-end scenario is settled this way. *)
Lemma trade_settlement_witness :
  trade scenarioSeries (num 100) 1 (num 10) (num 100) true 0 initState
  = Returns scenarioAfterFirstTrade
  /\ settled scenarioSeries (num 100) 1 (num 10) (num 100) true 0
             initState scenarioAfterFirstTrade.
Proof.
  split; [exact scenario_first_trade |].
  apply trade_settlement. exact scenario_first_trade.
Defined.

(** ** Entries whose exit index is beyond the series *)

Lemma monitor_liquidated_hit data lp pp long remaining j st fl st' :
  monitor data lp pp long remaining j st = Returns (fl, st') ->
  liquidated fl = true ->
  exists k c,
    k < remaining
    /\ nth_error data (j + k) = Some c
    /\ breachesLiquidation c lp long = true.
Proof.
  revert j st.
  induction remaining as [| remaining IH]; intros j st H Hfl.
  - simpl in H. inversion H; subst. discriminate.
  - simpl in H.
    destruct (nth_error data j) as [c |] eqn:Hc.
    2:{ rewrite isLiquidated_None in H. discriminate. }
    rewrite isLiquidated_Some, isProfitTaken_Some in H. simpl in H.
    destruct (breachesLiquidation c lp long) eqn:Hl.
    { exists 0, c. rewrite Nat.add_0_r. repeat split; try assumption. lia. }
    simpl in H.
    destruct (reachesProfitLimit c pp long) eqn:Hp.
    { inversion H; subst. discriminate. }
    destruct (IH _ _ H Hfl) as (k & c' & Hk & Hc' & Hl').
    exists (S k), c'. repeat split; try assumption; try lia.
    rewrite <- Hc'. f_equal. lia.
Qed.

Lemma tail_first_trade :
  trade tailSeries (num 100) 5 (num 100) (num 50) true 0 initState
  = Returns tailAfterFirstTrade.
Proof. reflexivity. Qed.




(** ** Counting entry events *)

Lemma filter_none {A : Type} (f : A -> bool) (l : list A) :
  (forall x, In x l -> f x = false) -> filter f l = [].
Proof.
  induction l as [| a l IH]; intro H; [reflexivity |].
  simpl. rewrite (H a) by (left; reflexivity).
  apply IH. intros x Hx. apply H. right. exact Hx.
Qed.

Lemma multiple_gap (freq c m : nat) :
  c * freq < m < c * freq + freq -> m mod freq <> 0.
Proof.
  intros [Hlo Hhi] E.
  apply Nat.Div0.mod_divides in E.
  destruct E as (c' & ->).
  assert (c < c') by nia.
  assert (c' < S c) by nia.
  lia.
Qed.

Lemma loopIndices_filter (freq len : nat) :
  1 <= freq ->
  forall fuel c,
    len - c * freq < fuel ->
    loopIndices fuel freq len (c * freq)
    = filter (fun i => (i mod freq =? 0) && (i + freq <? len))
             (seq (c * freq) (len - c * freq)).
Proof.
  intros Hf fuel.
  induction fuel as [| fuel IH]; intros c Hfuel; [lia |].
  simpl. destruct (c * freq + freq <? len) eqn:Hguard.
  - apply Nat.ltb_lt in Hguard.
    replace (len - c * freq) with (freq + (len - S c * freq)) by (simpl; lia).
    rewrite seq_app, filter_app.
    replace (c * freq + freq) with (S c * freq) by (simpl; lia).
    rewrite <- IH by (simpl; lia).
    destruct freq as [| freq]; [lia |].
    cbn [seq filter].
    rewrite Nat.Div0.mod_mul. simpl Nat.eqb. cbv iota.
    replace (c * S freq + S freq <? len) with true
      by (symmetry; apply Nat.ltb_lt; exact Hguard).
    simpl andb. cbv iota.
    rewrite filter_none; [reflexivity |].
    intros m Hm. apply in_seq in Hm.
    apply andb_false_iff. left. apply Nat.eqb_neq.
    apply (multiple_gap (S freq) c). lia.
  - apply Nat.ltb_ge in Hguard.
    symmetry. apply filter_none.
    intros m Hm. apply in_seq in Hm.
    apply andb_false_iff. right. apply Nat.ltb_ge. lia.
Qed.

Lemma loopIndices_entryEvents (freq len : nat) :
  1 <= freq -> loopIndices (S len) freq len 0 = entryEvents len freq.
Proof.
  intro Hf. unfold entryEvents.
  pose proof (loopIndices_filter freq len Hf (S len) 0) as H.
  simpl in H. rewrite Nat.sub_0_r in H. apply H. lia.
Qed.

Lemma trade_counts_one data buyAmount dur leverage pip long i st st' :
  trade data buyAmount dur leverage pip long i st = Returns st' ->
  outcomesCount st' = S (outcomesCount st).
Proof.
  intro H. rewrite trade_unfold in H.
  bind_inv H as entryPrice He.
  bind_inv H as [fl stm] Hm.
  simpl in H.
  apply monitor_Returns_inv in Hm. destruct Hm as (_ & Hcc & Hcases).
  simpl in Hcc. unfold outcomesCount.
  destruct Hcases as [(-> & Hl & Ht) | [(-> & Hl & Ht) | (-> & Hl & Ht & _)]];
    simpl in Hl, Ht.
  - rewrite settle_liquidated in H by reflexivity. inversion H; subst. lia.
  - apply settle_not_liquidated in H; [| reflexivity].
    destruct H as (c & _ & _ & Hl' & Ht' & Hc'). simpl in Hc'. lia.
  - apply settle_not_liquidated in H; [| reflexivity].
    destruct H as (c & _ & _ & Hl' & Ht' & Hc'). simpl in Hc'. lia.
Qed.

Lemma entries_counts data freq buyAmount dur leverage pip long fuel :
  forall i st st',
    entries fuel data freq buyAmount dur leverage pip long i st = Returns st' ->
    outcomesCount st'
    = outcomesCount st + length (loopIndices fuel freq (length data) i).
Proof.
  induction fuel as [| fuel IH]; intros i st st' H; [discriminate |].
  simpl in H. simpl.
  destruct (i + freq <? length data).
  - bind_inv H as st1 Ht.
    apply trade_counts_one in Ht. apply IH in H. simpl. lia.
  - inversion H; subst. simpl. lia.
Qed.

Lemma monitor_never_diverges data lp pp long remaining :
  forall j st, monitor data lp pp long remaining j st <> Diverges.
Proof.
  induction remaining as [| remaining IH]; intros j st; [discriminate |].
  simpl.
  destruct (nth_error data j) as [c |].
  2:{ rewrite isLiquidated_None. discriminate. }
  rewrite isLiquidated_Some, isProfitTaken_Some. simpl.
  destruct (breachesLiquidation c lp long); [discriminate |].
  destruct (reachesProfitLimit c pp long); [discriminate |].
  apply IH.
Qed.

Lemma settle_never_diverges data buyAmount long entryPrice btcBought pp
    exitIndex fl st :
  settle data buyAmount long entryPrice btcBought pp exitIndex fl st
  <> Diverges.
Proof.
  unfold settle, calculateExitSoldInUSD.
  destruct (negb (liquidated fl)); [| discriminate].
  destruct (profitTaken fl); simpl;
    destruct (nth_error data exitIndex); simpl; discriminate.
Qed.

Lemma trade_never_diverges data buyAmount dur leverage pip long i st :
  trade data buyAmount dur leverage pip long i st <> Diverges.
Proof.
  rewrite trade_unfold.
  destruct (prop open (nth_error data i)) as [entryPrice | |] eqn:He;
    simpl; try discriminate.
  - match goal with
    | |- bind ?m _ <> _ => destruct m as [[fl stm] | |] eqn:Hm
    end; simpl; try discriminate.
    + apply settle_never_diverges.
    + exfalso. exact (monitor_never_diverges _ _ _ _ _ _ _ Hm).
  - destruct (nth_error data i); discriminate.
Qed.



(** ** Runs whose exits all lie within the series *)

Lemma monitor_in_range_returns data lp pp long remaining :
  forall j st,
    j + remaining <= length data ->
    exists fl st', monitor data lp pp long remaining j st = Returns (fl, st').
Proof.
  induction remaining as [| remaining IH]; intros j st Hr.
  - eexists _, _. reflexivity.
  - simpl.
    destruct (nth_error data j) as [c |] eqn:Hc.
    2:{ apply nth_error_None in Hc. lia. }
    rewrite isLiquidated_Some, isProfitTaken_Some. simpl.
    destruct (breachesLiquidation c lp long); [eexists _, _; reflexivity |].
    destruct (reachesProfitLimit c pp long); [eexists _, _; reflexivity |].
    apply IH. lia.
Qed.

Lemma trade_in_range_returns data buyAmount dur leverage pip long i st :
  i + dur < length data ->
  exists st', trade data buyAmount dur leverage pip long i st = Returns st'.
Proof.
  intro Hr. rewrite trade_unfold.
  destruct (nth_error data i) as [entry |] eqn:He.
  2:{ apply nth_error_None in He. lia. }
  simpl.
  destruct (monitor_in_range_returns data
              (calculateLiquidationPrice (open entry) leverage long)
              (calculateProfitLimit (open entry) pip leverage long) long
              dur (i + 1) (logRead i st)) as (fl & stm & Hm); [lia |].
  rewrite Hm. simpl.
  unfold settle, calculateExitSoldInUSD.
  destruct (nth_error data (i + dur)) as [c |] eqn:Hc.
  2:{ apply nth_error_None in Hc. lia. }
  destruct (negb (liquidated fl)); [| eexists; reflexivity].
  destruct (profitTaken fl); simpl; eexists; reflexivity.
Qed.

Lemma entries_in_range_returns data freq buyAmount dur leverage pip long :
  1 <= freq ->
  dur <= freq ->
  forall fuel i st,
    length data - i < fuel ->
    exists st',
      entries fuel data freq buyAmount dur leverage pip long i st = Returns st'.
Proof.
  intros Hf Hd fuel.
  induction fuel as [| fuel IH]; intros i st Hfuel; [lia |].
  simpl. destruct (i + freq <? length data) eqn:Hguard.
  - apply Nat.ltb_lt in Hguard.
    destruct (trade_in_range_returns data buyAmount dur leverage pip long i st)
      as (st1 & Ht); [lia |].
    rewrite Ht. simpl. apply IH. lia.
  - eexists. reflexivity.
Qed.

(** A holding window no longer than the cadence keeps every exit index
    within the series, and the run completes. *)
Lemma dcaWithLeverage_completes data freq buyAmount dur leverage pip long :
  1 <= freq ->
  dur <= freq ->
  exists st,
    dcaWithLeverage data freq buyAmount dur leverage pip long = Returns st.
Proof.
  intros Hf Hd. unfold dcaWithLeverage.
  apply entries_in_range_returns; [exact Hf | exact Hd | lia].
Qed.

Lemma entryEvents_resolvable (len freq dur : nat) :
  dur <= freq ->
  filter (exitResolvable len dur) (entryEvents len freq) = entryEvents len freq.
Proof.
  intro Hd. unfold entryEvents.
  induction (seq 0 len) as [| i l IH]; [reflexivity |].
  simpl.
  destruct ((i mod freq =? 0) && (i + freq <? len)) eqn:E; [| exact IH].
  simpl. rewrite IH.
  apply andb_true_iff in E. destruct E as (_ & E). apply Nat.ltb_lt in E.
  unfold exitResolvable at 1.
  replace (i + dur <? len) with true; [reflexivity |].
  symmetry. apply Nat.ltb_lt. lia.
Qed.

(** ** The outcome counts of a run *)

Lemma tail_run :
  dcaWithLeverage tailSeries 1 (num 100) 5 (num 100) (num 50) true
  = Returns tailAfterRun.
Proof. reflexivity. Qed.

(** C2, as stated, fails: on [tailSeries], with a cadence of 1 bar and a
    window of 5 bars, no entry event has its exit index within the series,
    and the three counts of the completed run add up to 2. *)
Lemma outcomes_exceed_resolvable_entries :
  length (filter (exitResolvable (length tailSeries) 5)
                 (entryEvents (length tailSeries) 1)) = 0
  /\ exists st,
       dcaWithLeverage tailSeries 1 (num 100) 5 (num 100) (num 50) true
       = Returns st
       /\ liquidationsCount st + takeProfitsCount st + closedPositionsCount st
          = 2.
Proof.
  split; [reflexivity |].
  exists tailAfterRun. split; [exact tail_run | reflexivity].
Qed.

(** C2, amended: after a completed run, [liquidationsCount +
    takeProfitsCount + closedPositionsCount] equals the number of entry
    events (the multiples [i] of the cadence with [i + buyFrequencyInHours
    < data.length]), whether or not their exit index lies within the
    series; the two numbers agree when the window is no longer than the
    cadence. *)
Theorem outcomes_count_entry_events
    (data : list PriceData) (freq : nat) (buyAmount : number) (dur : nat)
    (leverage profitInPercent : number) (long : bool) (st : State) :
  1 <= freq ->
  dcaWithLeverage data freq buyAmount dur leverage profitInPercent long
  = Returns st ->
  countsEntryEvents data freq dur st.
Proof.
  intros Hf H. unfold dcaWithLeverage in H.
  apply entries_counts in H.
  rewrite loopIndices_entryEvents in H by exact Hf.
  split.
  - exact H.
  - intro Hd. now rewrite entryEvents_resolvable.
Qed.

(** The run on [tailSeries]: two entry events, two outcomes counted. *)
Lemma outcomes_count_entry_events_witness :
  1 <= 1
  /\ dcaWithLeverage tailSeries 1 (num 100) 5 (num 100) (num 50) true
     = Returns tailAfterRun
  /\ countsEntryEvents tailSeries 1 5 tailAfterRun.
Proof.
  split; [lia |]. split; [exact tail_run |].
  apply (outcomes_count_entry_events
           tailSeries 1 (num 100) 5 (num 100) (num 50) true).
  - lia.
  - exact tail_run.
Defined.

(** ** Series too short for an entry *)

(** C9: on a series whose length is at most the cadence (the empty series
    included) the simulator performs no entry event: it returns a wallet of
    0 and three counts of 0, and has evaluated no [data[k]]. *)
Theorem short_series_no_entry
    (data : list PriceData) (freq : nat) (buyAmount : number) (dur : nat)
    (leverage profitInPercent : number) (long : bool) :
  length data <= freq ->
  dcaWithLeverage data freq buyAmount dur leverage profitInPercent long
  = Returns (mkState (num 0) 0 0 0 [])
  /\ entryEvents (length data) freq = [].
Proof.
  intro Hlen. split.
  - unfold dcaWithLeverage. simpl.
    replace (freq <? length data) with false; [reflexivity |].
    symmetry. apply Nat.ltb_ge. exact Hlen.
  - unfold entryEvents. apply filter_none.
    intros i Hi. apply in_seq in Hi.
    apply andb_false_iff. right. apply Nat.ltb_ge. lia.
Qed.

(** The four bars of the scenario with a cadence of four bars. *)
Lemma short_series_no_entry_witness :
  length scenarioSeries <= 4
  /\ dcaWithLeverage scenarioSeries 4 (num 100) 1 (num 10) (num 100) true
     = Returns (mkState (num 0) 0 0 0 [])
  /\ entryEvents (length scenarioSeries) 4 = [].
Proof.
  split; [simpl; lia |].
  apply (short_series_no_entry scenarioSeries 4 (num 100) 1 (num 10) (num 100) true).
  simpl. lia.
Defined.

(** ** The order of [number] *)

Lemma leb_Fin (a b : Qc) : leb (Fin a) (Fin b) = true <-> (a <= b)%Qc.
Proof. simpl. apply Qle_bool_iff. Qed.

Lemma leb_trans (x y z : number) :
  leb x y = true -> leb y z = true -> leb x z = true.
Proof.
  destruct x as [a | | |], y as [b | | |], z as [c | | |];
    simpl; intros H1 H2; try reflexivity; try discriminate.
  apply Qle_bool_iff. apply Qle_bool_iff in H1, H2.
  eapply Qle_trans; eassumption.
Qed.

Lemma isPositive_sub_true (x y : number) :
  isPositive (sub x y) = true -> leb y x = true.
Proof.
  destruct x as [a | | |], y as [b | | |];
    simpl; intro H; try reflexivity; try discriminate.
  apply leb_Fin.
  destruct (a + - b ?= 0)%Qc eqn:E; try discriminate.
  apply Qclt_le_weak, Qclt_minus_iff. apply Qcgt_alt in E. exact E.
Qed.

Lemma isPositive_sub_false (x y : number) :
  x <> NaN -> y <> NaN ->
  isPositive (sub x y) = false -> leb x y = true.
Proof.
  destruct x as [a | | |], y as [b | | |];
    simpl; intros Hx Hy H; try reflexivity; try discriminate; try congruence.
  apply leb_Fin.
  apply Qcnot_lt_le. intro Hlt.
  apply Qclt_minus_iff, Qcgt_alt in Hlt.
  unfold Qcminus in *. rewrite Hlt in H. discriminate.
Qed.

(** ** Sorting the rows *)

Lemma ranksBefore_trans (a b c : Row) :
  ranksBefore a b -> ranksBefore b c -> ranksBefore a c.
Proof.
  unfold ranksBefore, geb. intros H1 H2. eapply leb_trans; eassumption.
Qed.

Lemma insertRow_In cmp x l z :
  In z (insertRow cmp x l) <-> z = x \/ In z l.
Proof.
  induction l as [| y l IH]; simpl.
  - intuition congruence.
  - destruct (isPositive (cmp y x)); simpl; [intuition congruence |].
    rewrite IH. intuition congruence.
Qed.

Lemma insertRow_Permutation cmp x l :
  Permutation (x :: l) (insertRow cmp x l).
Proof.
  induction l as [| y l IH]; simpl; [apply Permutation_refl |].
  destruct (isPositive (cmp y x)); [apply Permutation_refl |].
  eapply Permutation_trans; [apply perm_swap |].
  apply perm_skip. exact IH.
Qed.

Lemma insertRow_sorted x l :
  numeric x -> Forall numeric l ->
  StronglySorted ranksBefore l ->
  StronglySorted ranksBefore (insertRow compareRows x l).
Proof.
  intros Hx Hl Hs.
  induction Hs as [| y l Hs IH Hy]; simpl.
  - constructor; constructor.
  - inversion Hl as [| ? ? Hny Hnl]; subst.
    destruct (isPositive (compareRows y x)) eqn:E.
    + apply isPositive_sub_true in E.
      constructor; [constructor; assumption |].
      constructor; [exact E |].
      apply Forall_forall. intros z Hz.
      apply ranksBefore_trans with (b := y); [exact E |].
      rewrite Forall_forall in Hy. apply Hy. exact Hz.
    + apply isPositive_sub_false in E; [| exact Hx | exact Hny].
      constructor; [apply IH; exact Hnl |].
      apply Forall_forall. intros z Hz.
      apply insertRow_In in Hz. destruct Hz as [-> | Hz].
      * exact E.
      * rewrite Forall_forall in Hy. apply Hy. exact Hz.
Qed.

Lemma sortRows_fold_Permutation cmp l :
  forall acc,
    Permutation (l ++ acc)
                (fold_left (fun sorted x => insertRow cmp x sorted) l acc).
Proof.
  induction l as [| x l IH]; intro acc; simpl; [apply Permutation_refl |].
  eapply Permutation_trans; [| apply IH].
  eapply Permutation_trans; [apply Permutation_middle |].
  apply Permutation_app_head. apply insertRow_Permutation.
Qed.

Lemma sortRows_Permutation cmp l : Permutation l (sortRows cmp l).
Proof.
  unfold sortRows.
  pose proof (sortRows_fold_Permutation cmp l []) as H.
  rewrite app_nil_r in H. exact H.
Qed.

Lemma sortRows_fold_sorted l :
  forall acc,
    Forall numeric l -> Forall numeric acc ->
    StronglySorted ranksBefore acc ->
    StronglySorted ranksBefore
      (fold_left (fun sorted x => insertRow compareRows x sorted) l acc).
Proof.
  induction l as [| x l IH]; intros acc Hl Hacc Hs; simpl; [exact Hs |].
  inversion Hl as [| ? ? Hx Hl']; subst.
  apply IH; [exact Hl' | | apply insertRow_sorted; assumption].
  apply Forall_forall. intros z Hz. apply insertRow_In in Hz.
  destruct Hz as [-> | Hz]; [exact Hx |].
  rewrite Forall_forall in Hacc. apply Hacc. exact Hz.
Qed.

Lemma sortRows_sorted l :
  Forall numeric l -> StronglySorted ranksBefore (sortRows compareRows l).
Proof.
  intro Hl. unfold sortRows.
  apply sortRows_fold_sorted; [exact Hl | constructor | constructor].
Qed.

(** ** The grid sweep *)


Section SweepProperties.

Variable filteredData : list PriceData.
Variable dcaClassicWallet : number.
Variable buyFrequencyInHours : nat.
Variable dcaAmount : number.
Variable longDurationInHours : nat.

Lemma innerLoop_Returns_inv i jvs :
  forall acc rows,
    innerLoop filteredData dcaClassicWallet buyFrequencyInHours dcaAmount
              longDurationInHours i jvs acc = Returns rows ->
    exists new,
      rows = acc ++ new
      /\ Forall2 (fun ij r => cellOf filteredData dcaClassicWallet buyFrequencyInHours
                                 dcaAmount longDurationInHours ij = Returns r) (map (pair i) jvs) new.
Proof.
  induction jvs as [| j jvs IH]; intros acc rows H; simpl in H.
  - inversion H; subst. exists []. rewrite app_nil_r.
    split; [reflexivity | constructor].
  - bind_inv H as row Hrow.
    apply IH in H. destruct H as (new & -> & Hnew).
    exists (row :: new). rewrite <- app_assoc. split; [reflexivity |].
    constructor; assumption.
Qed.

Lemma outerLoop_Returns_inv ivs :
  forall acc rows,
    outerLoop filteredData dcaClassicWallet buyFrequencyInHours dcaAmount
              longDurationInHours ivs acc = Returns rows ->
    exists new,
      rows = acc ++ new
      /\ Forall2 (fun ij r => cellOf filteredData dcaClassicWallet buyFrequencyInHours
                                 dcaAmount longDurationInHours ij = Returns r)
                 (list_prod ivs profitValues) new.
Proof.
  induction ivs as [| i ivs IH]; intros acc rows H; cbn [outerLoop] in H.
  - inversion H; subst. exists []. rewrite app_nil_r.
    split; [reflexivity | constructor].
  - bind_inv H as rows1 H1.
    apply innerLoop_Returns_inv in H1. destruct H1 as (new1 & -> & Hnew1).
    apply IH in H. destruct H as (new & -> & Hnew).
    exists (new1 ++ new). rewrite <- app_assoc. split; [reflexivity |].
    cbn [list_prod]. apply Forall2_app; assumption.
Qed.




Lemma sweep_Returns_inv rows :
  simulateEveryLeverages filteredData dcaClassicWallet buyFrequencyInHours
                         dcaAmount longDurationInHours = Returns rows ->
  exists unsorted,
    Forall2 (fun ij r => cellOf filteredData dcaClassicWallet buyFrequencyInHours
                                 dcaAmount longDurationInHours ij = Returns r)
            (list_prod leverageValues profitValues) unsorted
    /\ rows = sortRows compareRows unsorted.
Proof.
  intro H. unfold simulateEveryLeverages in H.
  bind_inv H as unsorted Hu.
  apply outerLoop_Returns_inv in Hu. destruct Hu as (new & -> & Hnew).
  inversion H; subst. exists new. split; [exact Hnew | reflexivity].
Qed.



End SweepProperties.

(** ** Faults in the sweep *)





(** ** The ranked table *)

Lemma rank_sweep :
  simulateEveryLeverages rankSeries rankBaseline 1 (num 100) 1
  = Returns rankTable.
Proof. vm_compute. reflexivity. Qed.

Lemma rank_baseline : dca rankSeries 1 (num 100) = Returns rankBaseline.
Proof. vm_compute. reflexivity. Qed.

Lemma rank_state (leverage : Z) :
  leverage = 5%Z \/ leverage = 6%Z ->
  dcaWithLeverage rankSeries 1 (num 100) 1 (num leverage) (num 50) true
  = Returns (rankState leverage).
Proof. intros [-> | ->]; vm_compute; reflexivity. Qed.

(** C7, as stated, fails twice.  On [rankSeries] the cell (5, 50) has a
    smaller [deltaPercent] than the cell (6, 50), both round to -50.00, and
    the table shows the row of (5, 50) at position 1800, before that of
    (6, 50) at position 1820: the rows are not in descending order of
    [deltaPercent].  On the empty series the wallet of a cell equals the
    baseline, both 0, and [deltaPercent] is [NaN], not 0. *)
Lemma table_not_ranked_by_deltaPercent :
  (exists rows baseline st5 st6 r5 r6,
     dca rankSeries 1 (num 100) = Returns baseline
     /\ simulateEveryLeverages rankSeries baseline 1 (num 100) 1 = Returns rows
     /\ dcaWithLeverage rankSeries 1 (num 100) 1 (num 5) (num 50) true
        = Returns st5
     /\ dcaWithLeverage rankSeries 1 (num 100) 1 (num 6) (num 50) true
        = Returns st6
     /\ nth_error rows 1800 = Some r5
     /\ nth_error rows 1820 = Some r6
     /\ Leverage r5 = num 5 /\ AutoTakeProfit r5 = num 50
     /\ Leverage r6 = num 6 /\ AutoTakeProfit r6 = num 50
     /\ geb (diffenceInPercentage (wallet st5) baseline)
            (diffenceInPercentage (wallet st6) baseline) = false)
  /\ (exists st,
        dca [] 1 (num 100) = Returns (num 0)
        /\ dcaWithLeverage [] 1 (num 100) 1 (num 5) (num 50) true = Returns st
        /\ wallet st = num 0
        /\ diffenceInPercentage (wallet st) (num 0) = NaN).
Proof.
  split.
  - exists rankTable, rankBaseline, (rankState 5), (rankState 6),
      (nth 1800 rankTable (mkRow NaN NaN NaN NaN 0 0 0)),
      (nth 1820 rankTable (mkRow NaN NaN NaN NaN 0 0 0)).
    split; [exact rank_baseline |].
    split; [exact rank_sweep |].
    split; [apply rank_state; left; reflexivity |].
    split; [apply rank_state; right; reflexivity |].
    split; [vm_compute; reflexivity |].
    split; [vm_compute; reflexivity |].
    split; [vm_compute; reflexivity |].
    split; [vm_compute; reflexivity |].
    split; [vm_compute; reflexivity |].
    split; [vm_compute; reflexivity |].
    vm_compute. reflexivity.
  - exists initState.
    split; [reflexivity |]. split; [reflexivity |].
    split; reflexivity.
Qed.

Lemma zero_delta (q : Qc) :
  q <> 0%Qc ->
  toFixed 2 (sub (mul (div (Fin q) (Fin q)) (num 100)) (num 100)) = num 0.
Proof.
  intro Hq.
  assert (Hdiv : div (Fin q) (Fin q) = Fin 1%Qc).
  { simpl. destruct (q ?= 0)%Qc eqn:E.
    - exfalso. apply Hq. now apply Qc_compare_eq.
    - apply (f_equal Fin). unfold Qcdiv. now apply Qcmult_inv_r.
    - apply (f_equal Fin). unfold Qcdiv. now apply Qcmult_inv_r. }
  rewrite Hdiv.
  replace (sub (mul (Fin 1%Qc) (num 100)) (num 100)) with (Fin 0%Qc).
  - apply (f_equal Fin), Qc_is_canon. reflexivity.
  - unfold sub, num. simpl. apply (f_equal Fin). ring.
Qed.

(** C7, amended: for every cell of the grid the sweep computes
    [(wallet / dcaClassicWallet) * 100 - 100] and stores it in the row
    rounded to two decimals; the table it produces is in descending order
    of the stored value, provided no stored value is [NaN]; a cell whose
    wallet equals a finite, non-zero baseline has the percentage 0. *)
Theorem sweep_table_ranked
    (filteredData : list PriceData) (dcaClassicWallet : number)
    (buyFrequencyInHours : nat) (dcaAmount : number)
    (longDurationInHours : nat) (rows : list Row) :
  simulateEveryLeverages filteredData dcaClassicWallet buyFrequencyInHours
                         dcaAmount longDurationInHours = Returns rows ->
  rankedTable filteredData dcaClassicWallet buyFrequencyInHours dcaAmount
              longDurationInHours rows.
Proof.
  intro H. apply sweep_Returns_inv in H.
  destruct H as (unsorted & Hcells & ->).
  exists unsorted. split; [| split].
  - eapply Forall2_impl; [| exact Hcells].
    intros ij r Hc. unfold cellOf, cell in Hc.
    apply bind_Returns_inv in Hc. destruct Hc as (st & Hst & Hr).
    inversion Hr; subst; clear Hr.
    exists st. simpl. repeat split; try assumption.
    intros q Hq Hw Hb. rewrite Hw, Hb. unfold diffenceInPercentage.
    apply zero_delta. exact Hq.
  - apply sortRows_Permutation.
  - intro Hnum. apply sortRows_sorted.
    eapply Permutation_Forall; [| exact Hnum].
    apply Permutation_sym, sortRows_Permutation.
Qed.

(** The sweep of [rankSeries]. *)
Lemma sweep_table_ranked_witness :
  simulateEveryLeverages rankSeries rankBaseline 1 (num 100) 1
  = Returns rankTable
  /\ rankedTable rankSeries rankBaseline 1 (num 100) 1 rankTable.
Proof.
  split; [exact rank_sweep |].
  apply sweep_table_ranked. exact rank_sweep.
Defined.

(** * Further properties *)

(** ** The calculators, composed *)

Lemma div_Fin (x y : Qc) :
  y <> 0%Qc -> div (Fin x) (Fin y) = Fin (x / y)%Qc.
Proof.
  intro Hy. simpl. destruct (y ?= 0)%Qc eqn:E; try reflexivity.
  exfalso. apply Hy. now apply Qc_compare_eq.
Qed.

Lemma hundred_neq_0 : Q2Qc (inject_Z 100) <> 0%Qc.
Proof. intro H. discriminate H. Qed.


Lemma calculateLiquidationPrice_Fin (e l : Qc) (long : bool) :
  l <> 0%Qc ->
  calculateLiquidationPrice (Fin e) (Fin l) long
  = Fin (if long then e - e / l else e + e / l)%Qc.
Proof.
  intro Hl. unfold calculateLiquidationPrice, num.
  rewrite (div_Fin _ _ Hl), (div_Fin _ _ hundred_neq_0).
  pose proof hundred_neq_0 as H100.
  destruct long; simpl; apply (f_equal Fin); field; auto.
Qed.








Lemma Qcinv_pos (l : Qc) : (0 < l)%Qc -> (0 < / l)%Qc.
Proof.
  intro H. unfold Qclt in *. simpl in *.
  rewrite Qred_correct. apply Qinv_lt_0_compat. exact H.
Qed.


Lemma Qcinv_antitone (l1 l2 : Qc) :
  (0 < l1)%Qc -> (l1 <= l2)%Qc -> (/ l2 <= / l1)%Qc.
Proof.
  intros H1 H12.
  assert (H2 : (0 < l2)%Qc) by (eapply Qclt_le_trans; eassumption).
  assert (N1 : l1 <> 0%Qc) by (intro E; rewrite E in H1; discriminate H1).
  assert (N2 : l2 <> 0%Qc) by (intro E; rewrite E in H2; discriminate H2).
  pose proof (Qcinv_pos l1 H1) as P1.
  pose proof (Qcinv_pos l2 H2) as P2.
  pose proof (Qcmult_le_compat_r l1 l2 (/ l1 * / l2) H12) as H.
  assert (Hz : (0 <= / l1 * / l2)%Qc).
  { apply Qclt_le_weak.
    pose proof (Qcmult_lt_compat_r 0 (/ l1) (/ l2) P2 P1) as Hm.
    rewrite Qcmult_0_l in Hm. exact Hm. }
  specialize (H Hz).
  replace (l1 * (/ l1 * / l2))%Qc with (/ l2)%Qc in H by (field; auto).
  replace (l2 * (/ l1 * / l2))%Qc with (/ l1)%Qc in H by (field; auto).
  exact H.
Qed.

Lemma Qc_pos_neq (l : Qc) : (0 < l)%Qc -> l <> 0%Qc.
Proof. intros H E. rewrite E in H. discriminate H. Qed.



Lemma Qcdiv_antitone (e l1 l2 : Qc) :
  (0 <= e)%Qc -> (0 < l1)%Qc -> (l1 <= l2)%Qc -> (e / l2 <= e / l1)%Qc.
Proof.
  intros He H1 H12. unfold Qcdiv. rewrite !(Qcmult_comm e).
  apply Qcmult_le_compat_r; [apply Qcinv_antitone; assumption | exact He].
Qed.

Lemma Qcminus_le_compat_l (e t1 t2 : Qc) :
  (t2 <= t1)%Qc -> (e - t1 <= e - t2)%Qc.
Proof.
  intro H. unfold Qcminus.
  apply Qcplus_le_compat; [apply Qcle_refl | apply Qcopp_le_compat; exact H].
Qed.

Lemma Qcplus_le_compat_l (e t1 t2 : Qc) :
  (t2 <= t1)%Qc -> (e + t2 <= e + t1)%Qc.
Proof.
  intro H. apply Qcplus_le_compat; [apply Qcle_refl | exact H].
Qed.



(** X5: a bar that liquidates a position at some positive leverage
    liquidates it at every higher leverage, long or short, for a
    non-negative entry price. *)
Theorem higher_leverage_liquidates_sooner
    (candle : option PriceData) (entryPrice leverage1 leverage2 : Qc)
    (long : bool) :
  (0 <= entryPrice)%Qc ->
  (0 < leverage1)%Qc ->
  (leverage1 <= leverage2)%Qc ->
  isLiquidated candle
    (calculateLiquidationPrice (Fin entryPrice) (Fin leverage1) long) long
  = Returns true ->
  isLiquidated candle
    (calculateLiquidationPrice (Fin entryPrice) (Fin leverage2) long) long
  = Returns true.
Proof.
  intros He H1 H12 H.
  assert (H2 : (0 < leverage2)%Qc) by (eapply Qclt_le_trans; eassumption).
  rewrite calculateLiquidationPrice_Fin in * by (apply Qc_pos_neq; assumption).
  pose proof (Qcdiv_antitone _ _ _ He H1 H12) as Hd.
  destruct candle as [c |]; [| destruct long; discriminate H].
  rewrite isLiquidated_Some in *.
  apply (f_equal Returns). inversion H as [Hb]. rewrite Hb.
  destruct long; unfold breachesLiquidation, geb in *; cbv iota in *.
  - eapply leb_trans; [exact Hb |].
    apply leb_Fin. apply Qcminus_le_compat_l. exact Hd.
  - eapply leb_trans; [| exact Hb].
    apply leb_Fin. apply Qcplus_le_compat_l. exact Hd.
Qed.

Lemma higher_leverage_liquidates_sooner_witness :
  (0 <= qc 100)%Qc
  /\ (0 < qc 10)%Qc
  /\ (qc 10 <= qc 20)%Qc
  /\ isLiquidated (Some lowBar)
       (calculateLiquidationPrice (Fin (qc 100)) (Fin (qc 10)) true) true
     = Returns true
  /\ isLiquidated (Some lowBar)
       (calculateLiquidationPrice (Fin (qc 100)) (Fin (qc 20)) true) true
     = Returns true.
Proof.
  assert (He : (0 <= qc 100)%Qc) by (apply Qle_bool_iff; reflexivity).
  assert (H1 : (0 < qc 10)%Qc) by reflexivity.
  assert (H12 : (qc 10 <= qc 20)%Qc) by (apply Qle_bool_iff; reflexivity).
  assert (Hliq : isLiquidated (Some lowBar)
                   (calculateLiquidationPrice (Fin (qc 100)) (Fin (qc 10))
                                              true) true
                 = Returns true) by reflexivity.
  split; [exact He |]. split; [exact H1 |]. split; [exact H12 |].
  split; [exact Hliq |].
  exact (higher_leverage_liquidates_sooner (Some lowBar) (qc 100) (qc 10)
           (qc 20) true He H1 H12 Hliq).
Defined.

(** ** The baseline accumulator *)

Lemma multiples_step (f len c : nat) :
  1 <= f ->
  c * f < len ->
  filter (fun i => i mod f =? 0) (seq (c * f) (len - c * f))
  = c * f :: filter (fun i => i mod f =? 0) (seq (S c * f) (len - S c * f)).
Proof.
  intros Hf Hc.
  replace (len - c * f) with (S (len - c * f - 1)) by lia.
  cbn [seq filter]. rewrite Nat.Div0.mod_mul. cbn [Nat.eqb].
  f_equal.
  destruct (le_lt_dec (S c * f) len) as [Hle | Hgt].
  - replace (len - c * f - 1) with ((f - 1) + (len - S c * f))
      by (simpl in *; lia).
    rewrite seq_app, filter_app.
    replace (S (c * f) + (f - 1)) with (S c * f) by (simpl; lia).
    rewrite filter_none; [reflexivity |].
    intros m Hm. apply in_seq in Hm. apply Nat.eqb_neq.
    apply (multiple_gap f c). lia.
  - replace (len - S c * f) with 0 by lia. cbn [seq filter].
    apply filter_none.
    intros m Hm. apply in_seq in Hm. apply Nat.eqb_neq.
    apply (multiple_gap f c). simpl in *. lia.
Qed.

Lemma dca_loop_sums (data : list PriceData) (f : nat) (a : number) :
  1 <= f ->
  forall fuel c w,
    length data - c * f < fuel ->
    dca_loop fuel data f a (c * f) w
    = Returns
        (fold_left (fun w c => add w (div a (close c)))
           (map (fun i => nth i data (candle 0 0 0 0))
                (filter (fun i => i mod f =? 0)
                        (seq (c * f) (length data - c * f))))
           w).
Proof.
  intros Hf fuel.
  induction fuel as [| fuel IH]; intros c w Hfuel; [lia |].
  cbn [dca_loop].
  destruct (c * f <? length data) eqn:Hguard.
  - apply Nat.ltb_lt in Hguard.
    rewrite (nth_error_nth' data (candle 0 0 0 0) Hguard). cbn [prop bind].
    rewrite multiples_step by assumption.
    cbn [map fold_left].
    replace (c * f + f) with (S c * f) by (simpl; lia).
    apply IH. simpl. lia.
  - apply Nat.ltb_ge in Hguard.
    replace (length data - c * f) with 0 by lia. reflexivity.
Qed.

Lemma dca_fold_purchases (data : list PriceData) (buyFrequencyInHours : nat)
    (buyAmount : number) :
  1 <= buyFrequencyInHours ->
  dca data buyFrequencyInHours buyAmount
  = Returns (fold_left (fun wallet c => add wallet (div buyAmount (close c)))
                       (purchases data buyFrequencyInHours) (num 0)).
Proof.
  intro Hf. unfold dca, purchases, purchaseIndices.
  pose proof (dca_loop_sums data buyFrequencyInHours buyAmount Hf
                (S (length data)) 0 (num 0)) as H.
  cbn [Nat.mul] in H. rewrite Nat.sub_0_r in H. apply H. lia.
Qed.

(** X6: with a cadence of at least one bar [dca] always returns -
    it neither throws nor diverges - and its result is the sum of
    [buyAmount / close] over the candles at the multiples of the cadence. *)
Theorem dca_sums_purchases (data : list PriceData) (buyFrequencyInHours : nat)
    (buyAmount : number) :
  1 <= buyFrequencyInHours ->
  dca data buyFrequencyInHours buyAmount
  = Returns (fold_left (fun wallet c => add wallet (div buyAmount (close c)))
                       (purchases data buyFrequencyInHours) (num 0)).
Proof. apply dca_fold_purchases. Qed.

Lemma dca_sums_purchases_witness :
  1 <= 2
  /\ dca scenarioSeries 2 (num 100)
     = Returns (fold_left (fun wallet c => add wallet (div (num 100) (close c)))
                          (purchases scenarioSeries 2) (num 0)).
Proof.
  split; [lia |].
  apply (dca_sums_purchases scenarioSeries 2 (num 100)). lia.
Defined.

Lemma fold_purchases_closes (a : number) (l : list PriceData) :
  forall w,
    fold_left (fun wallet c => add wallet (div a (close c))) l w
    = fold_left (fun wallet x => add wallet (div a x)) (map close l) w.
Proof.
  induction l as [| c l IH]; intro w; [reflexivity |].
  cbn [map fold_left]. apply IH.
Qed.

(** X7: the baseline depends on the series only through the close
    prices at the purchase indices: two series with the same closes there
    give the same [dca], whatever their opens, highs, lows and other bars. *)
Theorem baseline_depends_on_purchase_closes
    (data data' : list PriceData) (buyFrequencyInHours : nat)
    (buyAmount : number) :
  1 <= buyFrequencyInHours ->
  map close (purchases data buyFrequencyInHours)
  = map close (purchases data' buyFrequencyInHours) ->
  dca data buyFrequencyInHours buyAmount
  = dca data' buyFrequencyInHours buyAmount.
Proof.
  intros Hf Hc. rewrite !dca_fold_purchases by exact Hf.
  rewrite !fold_purchases_closes, Hc. reflexivity.
Qed.

Lemma baseline_depends_on_purchase_closes_witness :
  1 <= 2
  /\ map close (purchases scenarioSeries 2)
     = map close (purchases scenarioCloses 2)
  /\ dca scenarioSeries 2 (num 100) = dca scenarioCloses 2 (num 100).
Proof.
  split; [lia |]. split; [reflexivity |].
  apply (baseline_depends_on_purchase_closes scenarioSeries scenarioCloses 2
                                             (num 100)).
  - lia.
  - reflexivity.
Defined.










(** X10: with a cadence of 0 on a non-empty series the loop of [dca]
    never ends: whatever the number of iterations allowed, no result is
    reached. *)
Theorem dca_zero_cadence_never_ends (data : list PriceData)
    (buyAmount : number) :
  data <> [] ->
  (forall fuel wallet, dca_loop fuel data 0 buyAmount 0 wallet = Diverges)
  /\ dca data 0 buyAmount = Diverges.
Proof.
  intro Hd.
  assert (H : forall fuel wallet,
             dca_loop fuel data 0 buyAmount 0 wallet = Diverges).
  { induction fuel as [| fuel IH]; intro w; [reflexivity |].
    destruct data as [| c data']; [contradiction |].
    cbn [dca_loop length Nat.ltb Nat.leb nth_error prop bind Nat.add].
    apply IH. }
  split; [exact H | apply H].
Qed.

Lemma dca_zero_cadence_never_ends_witness :
  tailSeries <> []
  /\ (forall fuel wallet,
        dca_loop fuel tailSeries 0 (num 100) 0 wallet = Diverges)
  /\ dca tailSeries 0 (num 100) = Diverges.
Proof.
  assert (Hd : tailSeries <> []) by (intro H; discriminate H).
  split; [exact Hd |].
  exact (dca_zero_cadence_never_ends tailSeries (num 100) Hd).
Defined.

(** ** The position simulator, further *)

(** X11: with a cadence of at least one bar and a holding window no
    longer than the cadence, [dcaWithLeverage] returns a result on every
    series: it neither throws nor diverges. *)
Theorem window_within_cadence_completes
    (data : list PriceData) (freq : nat) (buyAmount : number) (dur : nat)
    (leverage profitInPercent : number) (long : bool) :
  1 <= freq ->
  dur <= freq ->
  exists st,
    dcaWithLeverage data freq buyAmount dur leverage profitInPercent long
    = Returns st.
Proof.
  intros Hf Hd. unfold dcaWithLeverage.
  apply entries_in_range_returns; [exact Hf | exact Hd | lia].
Qed.

Lemma window_within_cadence_completes_witness :
  1 <= 2
  /\ 1 <= 2
  /\ exists st,
       dcaWithLeverage scenarioSeries 2 (num 100) 1 (num 10) (num 100) true
       = Returns st.
Proof.
  split; [lia |]. split; [lia |].
  apply (window_within_cadence_completes scenarioSeries 2 (num 100) 1
                                         (num 10) (num 100) true); lia.
Defined.

(** X12: with a cadence of 0 on a non-empty series
    [dcaWithLeverage] never returns a result, whatever the number of
    iterations allowed: it throws or loops for ever. *)
Theorem simulator_zero_cadence_never_returns
    (data : list PriceData) (buyAmount : number) (dur : nat)
    (leverage profitInPercent : number) (long : bool) :
  data <> [] ->
  (forall fuel st st',
     entries fuel data 0 buyAmount dur leverage profitInPercent long 0 st
     <> Returns st')
  /\ forall st',
       dcaWithLeverage data 0 buyAmount dur leverage profitInPercent long
       <> Returns st'.
Proof.
  intro Hd.
  assert (H : forall fuel st st',
             entries fuel data 0 buyAmount dur leverage profitInPercent long
                     0 st <> Returns st').
  { induction fuel as [| fuel IH]; intros st st'; [discriminate |].
    destruct data as [| c data']; [contradiction |].
    cbn [entries length Nat.add Nat.ltb Nat.leb].
    destruct (trade (c :: data') buyAmount dur leverage profitInPercent long
                    0 st) as [st1 | e |]; cbn [bind]; try discriminate.
    apply IH. }
  split; [exact H | intro st'; apply H].
Qed.

Lemma simulator_zero_cadence_never_returns_witness :
  tailSeries <> []
  /\ (forall fuel st st',
        entries fuel tailSeries 0 (num 100) 5 (num 100) (num 50) true 0 st
        <> Returns st')
  /\ forall st',
       dcaWithLeverage tailSeries 0 (num 100) 5 (num 100) (num 50) true
       <> Returns st'.
Proof.
  assert (Hd : tailSeries <> []) by (intro H; discriminate H).
  split; [exact Hd |].
  exact (simulator_zero_cadence_never_returns tailSeries (num 100) 5
           (num 100) (num 50) true Hd).
Defined.

Lemma monitor_reads_within data lp pp long remaining :
  forall j st fl st',
    monitor data lp pp long remaining j st = Returns (fl, st') ->
    readsWithin data st -> readsWithin data st'.
Proof.
  unfold readsWithin.
  induction remaining as [| remaining IH]; intros j st fl st' H Hr.
  - inversion H; subst. exact Hr.
  - cbn [monitor] in H.
    destruct (nth_error data j) as [c |] eqn:Hc.
    2:{ rewrite isLiquidated_None in H. discriminate. }
    assert (Hj : j < length data) by (apply nth_error_Some; congruence).
    rewrite isLiquidated_Some, isProfitTaken_Some in H. cbn [bind] in H.
    destruct (breachesLiquidation c lp long).
    { inversion H; subst. cbn. constructor; assumption. }
    destruct (reachesProfitLimit c pp long).
    { inversion H; subst. cbn. constructor; [| constructor]; assumption. }
    apply IH in H; [exact H |].
    cbn. constructor; [| constructor]; assumption.
Qed.

Lemma settle_reads_within data buyAmount long entryPrice btcBought pp
    exitIndex fl st st' :
  settle data buyAmount long entryPrice btcBought pp exitIndex fl st
  = Returns st' ->
  readsWithin data st -> readsWithin data st'.
Proof.
  unfold readsWithin, settle, calculateExitSoldInUSD. intros H Hr.
  destruct (negb (liquidated fl)).
  - destruct (nth_error data exitIndex) as [c |] eqn:Hc.
    + assert (Hj : exitIndex < length data)
        by (apply nth_error_Some; congruence).
      destruct (negb (profitTaken fl) && true), (profitTaken fl);
        cbn in H; inversion H; subst; cbn;
        (constructor; [| constructor]; assumption).
    + destruct (profitTaken fl); cbn in H; discriminate.
  - inversion H; subst. exact Hr.
Qed.

Lemma trade_reads_within data buyAmount dur leverage pip long i st st' :
  trade data buyAmount dur leverage pip long i st = Returns st' ->
  readsWithin data st -> readsWithin data st'.
Proof.
  intros H Hr. rewrite trade_unfold in H.
  bind_inv H as entryPrice He.
  apply prop_Returns_inv in He. destruct He as (entry & Hentry & ->).
  bind_inv H as [fl stm] Hm.
  cbn [fst snd] in H.
  eapply settle_reads_within; [exact H |].
  eapply monitor_reads_within; [exact Hm |].
  unfold readsWithin. cbn. constructor; [| exact Hr].
  apply nth_error_Some. congruence.
Qed.

Lemma entries_reads_within data freq buyAmount dur leverage pip long fuel :
  forall i st st',
    entries fuel data freq buyAmount dur leverage pip long i st = Returns st' ->
    readsWithin data st -> readsWithin data st'.
Proof.
  induction fuel as [| fuel IH]; intros i st st' H Hr; [discriminate |].
  cbn [entries] in H.
  destruct (i + freq <? length data).
  - bind_inv H as st1 Ht.
    eapply IH; [exact H |]. eapply trade_reads_within; eassumption.
  - inversion H; subst. exact Hr.
Qed.

(** X13: a run that completes has evaluated [data[k]] only at
    indices within the series. *)
Theorem completed_run_reads_within_series
    (data : list PriceData) (freq : nat) (buyAmount : number) (dur : nat)
    (leverage profitInPercent : number) (long : bool) (st : State) :
  dcaWithLeverage data freq buyAmount dur leverage profitInPercent long
  = Returns st ->
  Forall (fun k => k < length data) (reads st).
Proof.
  intro H. unfold dcaWithLeverage in H.
  apply (entries_reads_within _ _ _ _ _ _ _ _ _ _ _ H).
  constructor.
Qed.

Lemma completed_run_reads_within_series_witness :
  dcaWithLeverage tailSeries 1 (num 100) 5 (num 100) (num 50) true
  = Returns tailAfterRun
  /\ Forall (fun k => k < length tailSeries) (reads tailAfterRun).
Proof.
  split; [exact tail_run |].
  apply (completed_run_reads_within_series tailSeries 1 (num 100) 5
           (num 100) (num 50) true).
  exact tail_run.
Defined.

(** X14: a completed entry event increments exactly one of
    [liquidationsCount], [takeProfitsCount] and [closedPositionsCount], by
    one, and leaves the other two as they were. *)
Theorem trade_counts_exactly_one_outcome
    (data : list PriceData) (buyAmount : number) (dur : nat)
    (leverage profitInPercent : number) (long : bool) (i : nat)
    (st st' : State) :
  trade data buyAmount dur leverage profitInPercent long i st = Returns st' ->
  (liquidationsCount st' = S (liquidationsCount st)
   /\ takeProfitsCount st' = takeProfitsCount st
   /\ closedPositionsCount st' = closedPositionsCount st)
  \/ (liquidationsCount st' = liquidationsCount st
      /\ takeProfitsCount st' = S (takeProfitsCount st)
      /\ closedPositionsCount st' = closedPositionsCount st)
  \/ (liquidationsCount st' = liquidationsCount st
      /\ takeProfitsCount st' = takeProfitsCount st
      /\ closedPositionsCount st' = S (closedPositionsCount st)).
Proof.
  intro H. rewrite trade_unfold in H.
  bind_inv H as entryPrice He.
  bind_inv H as [fl stm] Hm.
  cbn [fst snd] in H.
  apply monitor_Returns_inv in Hm. destruct Hm as (_ & Hcc & Hcases).
  cbn in Hcc.
  destruct Hcases as [(-> & Hl & Ht) | [(-> & Hl & Ht) | (-> & Hl & Ht & _)]];
    cbn in Hl, Ht.
  - rewrite settle_liquidated in H by reflexivity. inversion H; subst.
    left. repeat split; assumption.
  - apply settle_not_liquidated in H; [| reflexivity].
    destruct H as (c & _ & _ & Hl' & Ht' & Hc'). cbn in Hc'.
    right; left. repeat split; lia.
  - apply settle_not_liquidated in H; [| reflexivity].
    destruct H as (c & _ & _ & Hl' & Ht' & Hc'). cbn in Hc'.
    right; right. repeat split; lia.
Qed.

Lemma trade_counts_exactly_one_outcome_witness :
  trade tailSeries (num 100) 5 (num 100) (num 50) true 0 initState
  = Returns tailAfterFirstTrade
  /\ ((liquidationsCount tailAfterFirstTrade = S (liquidationsCount initState)
       /\ takeProfitsCount tailAfterFirstTrade = takeProfitsCount initState
       /\ closedPositionsCount tailAfterFirstTrade
          = closedPositionsCount initState)
      \/ (liquidationsCount tailAfterFirstTrade = liquidationsCount initState
          /\ takeProfitsCount tailAfterFirstTrade
             = S (takeProfitsCount initState)
          /\ closedPositionsCount tailAfterFirstTrade
             = closedPositionsCount initState)
      \/ (liquidationsCount tailAfterFirstTrade = liquidationsCount initState
          /\ takeProfitsCount tailAfterFirstTrade = takeProfitsCount initState
          /\ closedPositionsCount tailAfterFirstTrade
             = S (closedPositionsCount initState))).
Proof.
  split; [exact tail_first_trade |].
  apply (trade_counts_exactly_one_outcome tailSeries (num 100) 5 (num 100)
           (num 50) true 0).
  exact tail_first_trade.
Defined.

Lemma trade_wallet_moves_with_counts data buyAmount dur leverage pip long i
    st st' :
  trade data buyAmount dur leverage pip long i st = Returns st' ->
  takeProfitsCount st <= takeProfitsCount st'
  /\ closedPositionsCount st <= closedPositionsCount st'
  /\ (takeProfitsCount st' = takeProfitsCount st ->
      closedPositionsCount st' = closedPositionsCount st ->
      wallet st' = wallet st).
Proof.
  intro H. rewrite trade_unfold in H.
  bind_inv H as entryPrice He.
  bind_inv H as [fl stm] Hm.
  cbn [fst snd] in H.
  apply monitor_Returns_inv in Hm. destruct Hm as (Hw & Hcc & Hcases).
  cbn in Hw, Hcc.
  destruct Hcases as [(-> & Hl & Ht) | [(-> & Hl & Ht) | (-> & Hl & Ht & _)]];
    cbn in Hl, Ht.
  - rewrite settle_liquidated in H by reflexivity. inversion H; subst.
    split; [lia |]. split; [lia |]. intros _ _. exact Hw.
  - apply settle_not_liquidated in H; [| reflexivity].
    destruct H as (c & _ & _ & Hl' & Ht' & Hc'). cbn in Hc'.
    split; [lia |]. split; [lia |]. intros E _. lia.
  - apply settle_not_liquidated in H; [| reflexivity].
    destruct H as (c & _ & _ & Hl' & Ht' & Hc'). cbn in Hc'.
    split; [lia |]. split; [lia |]. intros _ E. lia.
Qed.

Lemma entries_wallet_moves_with_counts data freq buyAmount dur leverage pip
    long fuel :
  forall i st st',
    entries fuel data freq buyAmount dur leverage pip long i st = Returns st' ->
    takeProfitsCount st <= takeProfitsCount st'
    /\ closedPositionsCount st <= closedPositionsCount st'
    /\ (takeProfitsCount st' = takeProfitsCount st ->
        closedPositionsCount st' = closedPositionsCount st ->
        wallet st' = wallet st).
Proof.
  induction fuel as [| fuel IH]; intros i st st' H; [discriminate |].
  cbn [entries] in H.
  destruct (i + freq <? length data).
  - bind_inv H as st1 Ht.
    apply trade_wallet_moves_with_counts in Ht.
    apply IH in H.
    destruct Ht as (T1 & C1 & W1), H as (T2 & C2 & W2).
    split; [lia |]. split; [lia |].
    intros Et Ec. rewrite W2 by lia. apply W1; lia.
  - inversion H; subst.
    split; [lia |]. split; [lia |]. intros _ _. reflexivity.
Qed.

(** X15: a completed run in which no trade was profit-taken or
    time-expired - every entry was liquidated - ends with a wallet of 0. *)
Theorem all_liquidated_leaves_nothing
    (data : list PriceData) (freq : nat) (buyAmount : number) (dur : nat)
    (leverage profitInPercent : number) (long : bool) (st : State) :
  dcaWithLeverage data freq buyAmount dur leverage profitInPercent long
  = Returns st ->
  takeProfitsCount st = 0 ->
  closedPositionsCount st = 0 ->
  wallet st = num 0.
Proof.
  intros H Ht Hc. unfold dcaWithLeverage in H.
  apply entries_wallet_moves_with_counts in H.
  destruct H as (_ & _ & W). apply W; assumption.
Qed.

Lemma all_liquidated_leaves_nothing_witness :
  dcaWithLeverage tailSeries 1 (num 100) 5 (num 100) (num 50) true
  = Returns tailAfterRun
  /\ takeProfitsCount tailAfterRun = 0
  /\ closedPositionsCount tailAfterRun = 0
  /\ wallet tailAfterRun = num 0.
Proof.
  split; [exact tail_run |]. split; [reflexivity |]. split; [reflexivity |].
  apply (all_liquidated_leaves_nothing tailSeries 1 (num 100) 5 (num 100)
           (num 50) true).
  - exact tail_run.
  - reflexivity.
  - reflexivity.
Defined.



(** X17: an entry whose exit index is beyond the series, and which
    no bar inside the series liquidates, ends in a [TypeError]. *)
Theorem out_of_range_exit_throws_unless_liquidated
    (data : list PriceData) (buyAmount : number) (dur : nat)
    (leverage profitInPercent : number) (long : bool) (i : nat) (st : State) :
  length data <= i + dur ->
  (forall entry k c,
     nth_error data i = Some entry ->
     k < dur ->
     nth_error data (i + 1 + k) = Some c ->
     breachesLiquidation
       c (calculateLiquidationPrice (open entry) leverage long) long = false) ->
  trade data buyAmount dur leverage profitInPercent long i st
  = Throws TypeError.
Proof.
  intros Hrange Hquiet.
  destruct (trade data buyAmount dur leverage profitInPercent long i st)
    as [st' | e |] eqn:H.
  - exfalso. rewrite trade_unfold in H.
    bind_inv H as entryPrice He.
    apply prop_Returns_inv in He. destruct He as (entry & Hentry & ->).
    bind_inv H as [fl stm] Hm.
    cbn [fst snd] in H.
    assert (Hexit : nth_error data (i + dur) = None)
      by (apply nth_error_None; exact Hrange).
    pose proof (monitor_Returns_inv _ _ _ _ _ _ _ _ _ Hm) as (_ & _ & Hcases).
    destruct Hcases as [(-> & _) | [(-> & _) | (-> & _)]].
    + destruct (monitor_liquidated_hit _ _ _ _ _ _ _ _ _ Hm eq_refl)
        as (k & c & Hk & Hc & Hl).
      rewrite (Hquiet entry k c Hentry Hk Hc) in Hl. discriminate.
    + apply settle_not_liquidated in H; [| reflexivity].
      destruct H as (c & Hc & _). congruence.
    + apply settle_not_liquidated in H; [| reflexivity].
      destruct H as (c & Hc & _). congruence.
  - f_equal. apply error_unique.
  - exfalso. exact (trade_never_diverges _ _ _ _ _ _ _ _ H).
Qed.

Lemma out_of_range_exit_throws_unless_liquidated_witness :
  length tailSeries <= 0 + 5
  /\ (forall entry k c,
        nth_error tailSeries 0 = Some entry ->
        k < 5 ->
        nth_error tailSeries (0 + 1 + k) = Some c ->
        breachesLiquidation
          c (calculateLiquidationPrice (open entry) (num 5) true) true
        = false)
  /\ trade tailSeries (num 100) 5 (num 5) (num 50) true 0 initState
     = Throws TypeError.
Proof.
  assert (Hlen : length tailSeries <= 0 + 5) by (simpl; lia).
  assert (Hq : forall entry k c,
             nth_error tailSeries 0 = Some entry ->
             k < 5 ->
             nth_error tailSeries (0 + 1 + k) = Some c ->
             breachesLiquidation
               c (calculateLiquidationPrice (open entry) (num 5) true) true
             = false).
  { intros entry k c He _ Hc. inversion He; subst entry.
    destruct k as [| [| k]]; simpl in Hc.
    - inversion Hc; subst c. reflexivity.
    - inversion Hc; subst c. reflexivity.
    - destruct k; discriminate Hc. }
  split; [exact Hlen |]. split; [exact Hq |].
  exact (out_of_range_exit_throws_unless_liquidated tailSeries (num 100) 5
           (num 5) (num 50) true 0 initState Hlen Hq).
Defined.

(** ** The sort and the table, further *)

Lemma isPositive_sub_leb (x y : number) :
  leb x y = true -> isPositive (sub x y) = false.
Proof.
  destruct x as [a | | |], y as [b | | |];
    cbn [leb sub neg add isPositive]; intro H;
    try reflexivity; try discriminate.
  apply Qle_bool_iff in H.
  destruct (a + - b ?= 0)%Qc eqn:E; try reflexivity.
  exfalso. apply Qcgt_alt in E.
  apply Qclt_minus_iff in E. exact (Qlt_not_le _ _ E H).
Qed.

Lemma insertRow_after_all x l :
  Forall (fun y => ranksBefore y x) l ->
  insertRow compareRows x l = l ++ [x].
Proof.
  induction 1 as [| y l Hy _ IH]; [reflexivity |].
  cbn [insertRow app]. unfold compareRows at 1.
  rewrite (isPositive_sub_leb _ _ Hy). rewrite IH. reflexivity.
Qed.

Lemma sortRows_fold_sorted_input l :
  forall acc,
    StronglySorted ranksBefore (acc ++ l) ->
    fold_left (fun sorted x => insertRow compareRows x sorted) l acc
    = acc ++ l.
Proof.
  induction l as [| x l IH]; intros acc Hs; cbn [fold_left].
  - now rewrite app_nil_r.
  - rewrite insertRow_after_all.
    + rewrite IH; rewrite <- app_assoc; [reflexivity | exact Hs].
    + clear IH. induction acc as [| y acc IHacc]; [constructor |].
      cbn [app] in Hs. inversion Hs as [| ? ? Hs' Hy]; subst.
      constructor.
      * rewrite Forall_forall in Hy. apply Hy.
        apply in_or_app. right. left. reflexivity.
      * apply IHacc. exact Hs'.
Qed.

Lemma sortRows_sorted_input l :
  StronglySorted ranksBefore l -> sortRows compareRows l = l.
Proof.
  intro Hs. unfold sortRows.
  apply (sortRows_fold_sorted_input l []). exact Hs.
Qed.

(** X18: sorting a table that is already in descending order of the
    stored percentage leaves it as it is (so sorting twice is sorting
    once). *)
Theorem sorted_table_unchanged (l : list Row) :
  StronglySorted ranksBefore l -> sortRows compareRows l = l.
Proof. apply sortRows_sorted_input. Qed.

Lemma sorted_table_unchanged_witness :
  StronglySorted ranksBefore rankedPair
  /\ sortRows compareRows rankedPair = rankedPair.
Proof.
  assert (Hs : StronglySorted ranksBefore rankedPair).
  { repeat constructor. }
  split; [exact Hs |].
  exact (sorted_table_unchanged rankedPair Hs).
Defined.

Lemma numEqb_eq (x y : number) : numEqb x y = true -> x = y.
Proof.
  destruct x as [a | | |], y as [b | | |]; cbn [numEqb]; intro H;
    try reflexivity; try discriminate.
  apply (f_equal Fin), Qc_is_canon. apply Qeq_bool_iff. exact H.
Qed.

Lemma leb_refl (x : number) : x <> NaN -> leb x x = true.
Proof.
  destruct x as [a | | |]; cbn [leb]; intro H;
    try reflexivity; try congruence.
  apply Qle_bool_iff. apply Qle_refl.
Qed.

Lemma above_not_equal (x y z : number) :
  isPositive (sub x y) = true -> leb z y = true -> numEqb z x = false.
Proof.
  destruct x as [a | | |], y as [b | | |], z as [c | | |];
    cbn [leb sub neg add isPositive numEqb]; intros H1 H2;
    try reflexivity; try discriminate.
  destruct (a + - b ?= 0)%Qc eqn:E; try discriminate.
  apply Qcgt_alt, Qclt_minus_iff in E. apply Qle_bool_iff in H2.
  destruct (Qeq_bool c a) eqn:Eq; [| reflexivity].
  exfalso. apply Qeq_bool_iff in Eq.
  apply (Qlt_not_le _ _ E). rewrite <- Eq. exact H2.
Qed.

Lemma insertRow_filter v x l :
  numeric x -> Forall numeric l ->
  StronglySorted ranksBefore l ->
  filter (storedEqb v) (insertRow compareRows x l)
  = filter (storedEqb v) l ++ (if storedEqb v x then [x] else []).
Proof.
  intros Hx Hl Hs.
  induction Hs as [| y l Hs IH Hy].
  - cbn. destruct (storedEqb v x); reflexivity.
  - inversion Hl as [| ? ? Hny Hnl]; subst.
    cbn [insertRow].
    destruct (isPositive (compareRows y x)) eqn:E.
    + destruct (storedEqb v x) eqn:Ex.
      * assert (Hnone : filter (storedEqb v) (y :: l) = []).
        { apply filter_none. intros z Hz.
          unfold storedEqb in *. apply numEqb_eq in Ex. rewrite <- Ex.
          apply (above_not_equal _ (BTCAccumulatedVsClassic y)); [exact E |].
          destruct Hz as [<- | Hz]; [apply leb_refl; exact Hny |].
          rewrite Forall_forall in Hy. apply Hy. exact Hz. }
        cbn [filter] in *. rewrite Ex, Hnone. reflexivity.
      * cbn [filter]. rewrite Ex. now rewrite app_nil_r.
    + cbn [filter]. rewrite (IH Hnl).
      destruct (storedEqb v y); reflexivity.
Qed.

Lemma insertRow_numeric x l :
  numeric x -> Forall numeric l -> Forall numeric (insertRow compareRows x l).
Proof.
  intros Hx Hl. apply Forall_forall. intros z Hz.
  apply insertRow_In in Hz. destruct Hz as [-> | Hz]; [exact Hx |].
  rewrite Forall_forall in Hl. apply Hl. exact Hz.
Qed.

Lemma sortRows_fold_filter v l :
  forall acc,
    Forall numeric l -> Forall numeric acc ->
    StronglySorted ranksBefore acc ->
    filter (storedEqb v)
           (fold_left (fun sorted x => insertRow compareRows x sorted) l acc)
    = filter (storedEqb v) acc ++ filter (storedEqb v) l.
Proof.
  induction l as [| x l IH]; intros acc Hl Hacc Hs; cbn [fold_left].
  - cbn. now rewrite app_nil_r.
  - inversion Hl as [| ? ? Hx Hl']; subst.
    rewrite IH;
      [| exact Hl' | apply insertRow_numeric; assumption
       | apply insertRow_sorted; assumption].
    rewrite insertRow_filter by assumption.
    rewrite <- app_assoc. cbn [filter].
    destruct (storedEqb v x); reflexivity.
Qed.

Lemma sortRows_stable (l : list Row) (v : number) :
  Forall numeric l ->
  filter (storedEqb v) (sortRows compareRows l) = filter (storedEqb v) l.
Proof.
  intro Hl. unfold sortRows.
  rewrite sortRows_fold_filter; [reflexivity | exact Hl | constructor | constructor].
Qed.

Lemma isNumeric_numeric (r : Row) : isNumeric r = true -> numeric r.
Proof.
  unfold isNumeric, numeric. intros H E. rewrite E in H. discriminate H.
Qed.

Lemma rank_table_numeric : Forall numeric rankTable.
Proof.
  apply Forall_forall. intros r Hr. apply isNumeric_numeric.
  assert (Hall : forallb isNumeric rankTable = true)
    by (vm_compute; reflexivity).
  rewrite forallb_forall in Hall. apply Hall. exact Hr.
Qed.

(** X19: the sort keeps ties in grid order: for every value, the
    rows of the table that store it are, in the same order, the rows that
    store it in the order the cells were evaluated (leverage ascending, then
    profit target ascending), when no stored value is [NaN]. *)
Theorem sweep_ties_keep_grid_order
    (filteredData : list PriceData) (dcaClassicWallet : number)
    (buyFrequencyInHours : nat) (dcaAmount : number)
    (longDurationInHours : nat) (rows : list Row) :
  simulateEveryLeverages filteredData dcaClassicWallet buyFrequencyInHours
                         dcaAmount longDurationInHours = Returns rows ->
  Forall numeric rows ->
  exists unsorted : list Row,
    Forall2 (fun ij r =>
               cellOf filteredData dcaClassicWallet buyFrequencyInHours
                      dcaAmount longDurationInHours ij = Returns r)
            (list_prod leverageValues profitValues) unsorted
    /\ forall v : number,
         filter (storedEqb v) rows = filter (storedEqb v) unsorted.
Proof.
  intros H Hnum. apply sweep_Returns_inv in H.
  destruct H as (unsorted & Hcells & ->).
  exists unsorted. split; [exact Hcells |].
  intro v. apply sortRows_stable.
  eapply Permutation_Forall; [| exact Hnum].
  apply Permutation_sym, sortRows_Permutation.
Qed.

Lemma sweep_ties_keep_grid_order_witness :
  simulateEveryLeverages rankSeries rankBaseline 1 (num 100) 1
  = Returns rankTable
  /\ Forall numeric rankTable
  /\ exists unsorted : list Row,
       Forall2 (fun ij r =>
                  cellOf rankSeries rankBaseline 1 (num 100) 1 ij = Returns r)
               (list_prod leverageValues profitValues) unsorted
       /\ forall v : number,
            filter (storedEqb v) rankTable = filter (storedEqb v) unsorted.
Proof.
  split; [exact rank_sweep |]. split; [exact rank_table_numeric |].
  exact (sweep_ties_keep_grid_order rankSeries rankBaseline 1 (num 100) 1
           rankTable rank_sweep rank_table_numeric).
Defined.

Lemma innerLoop_returns data b freq amount dur i jvs :
  (forall j, exists r, cell data b freq amount dur i j = Returns r) ->
  forall acc,
    exists rows, innerLoop data b freq amount dur i jvs acc = Returns rows.
Proof.
  intro Hcell. induction jvs as [| j jvs IH]; intro acc; cbn [innerLoop].
  - eexists. reflexivity.
  - destruct (Hcell j) as (r & Hr). rewrite Hr. cbn [bind]. apply IH.
Qed.

Lemma outerLoop_returns data b freq amount dur ivs :
  (forall i j, exists r, cell data b freq amount dur i j = Returns r) ->
  forall acc,
    exists rows, outerLoop data b freq amount dur ivs acc = Returns rows.
Proof.
  intro Hcell. induction ivs as [| i ivs IH]; intro acc; cbn [outerLoop].
  - eexists. reflexivity.
  - destruct (innerLoop_returns data b freq amount dur i profitValues
                (Hcell i) acc) as (rows1 & H1).
    rewrite H1. cbn [bind]. apply IH.
Qed.

(** X20: with a cadence of at least one bar and a window no longer
    than the cadence the sweep completes on every series, and its table has
    1920 rows, one per cell of the grid 5..100 by 50..1000 step 50. *)
Theorem sweep_completes_with_1920_rows
    (filteredData : list PriceData) (dcaClassicWallet : number)
    (buyFrequencyInHours : nat) (dcaAmount : number)
    (longDurationInHours : nat) :
  1 <= buyFrequencyInHours ->
  longDurationInHours <= buyFrequencyInHours ->
  exists rows,
    simulateEveryLeverages filteredData dcaClassicWallet buyFrequencyInHours
                           dcaAmount longDurationInHours = Returns rows
    /\ length rows = 1920.
Proof.
  intros Hf Hd.
  destruct (outerLoop_returns filteredData dcaClassicWallet
              buyFrequencyInHours dcaAmount longDurationInHours
              leverageValues) with (acc := @nil Row) as (unsorted & Hu).
  { intros i j. unfold cell.
    destruct (dcaWithLeverage_completes filteredData buyFrequencyInHours
                dcaAmount longDurationInHours (num i) (num j) true Hf Hd)
      as (st & Hst).
    rewrite Hst. eexists. reflexivity. }
  exists (sortRows compareRows unsorted). split.
  - unfold simulateEveryLeverages. rewrite Hu. reflexivity.
  - rewrite <- (Permutation_length (sortRows_Permutation compareRows unsorted)).
    apply outerLoop_Returns_inv in Hu. destruct Hu as (new & -> & Hnew).
    cbn [app]. rewrite <- (Forall2_length Hnew). reflexivity.
Qed.

Lemma sweep_completes_with_1920_rows_witness :
  1 <= 2
  /\ 1 <= 2
  /\ exists rows,
       simulateEveryLeverages scenarioSeries (num 1) 2 (num 100) 1
       = Returns rows
       /\ length rows = 1920.
Proof.
  split; [lia |]. split; [lia |].
  apply (sweep_completes_with_1920_rows scenarioSeries (num 1) 2 (num 100) 1);
    lia.
Defined.

(** ** Rounding and the order of the table *)

Section Rounding.

Variable digits : nat.

Lemma scale_pos : (0 < scale digits)%Q.
Proof.
  unfold scale. change 0%Q with (inject_Z 0). rewrite <- Zlt_Qlt.
  apply Z.pow_pos_nonneg; lia.
Qed.

Lemma roundedMagnitude_monotone (u v : Q) :
  (u <= v)%Q -> (roundedMagnitude digits u <= roundedMagnitude digits v)%Q.
Proof.
  intro H. unfold roundedMagnitude, Qdiv.
  pose proof scale_pos as Hs.
  apply Qmult_le_compat_r.
  - rewrite <- Zle_Qle. apply Qfloor_resp_le.
    assert (u * scale digits <= v * scale digits)%Q
      by (apply Qmult_le_compat_r; [exact H | lra]).
    lra.
  - apply Qinv_le_0_compat. lra.
Qed.

Lemma roundedMagnitude_nonneg (u : Q) :
  (0 <= u)%Q -> (0 <= roundedMagnitude digits u)%Q.
Proof.
  intro H. unfold roundedMagnitude, Qdiv.
  pose proof scale_pos as Hs.
  apply Qmult_le_0_compat.
  - change 0%Q with (inject_Z 0). rewrite <- Zle_Qle.
    change 0%Z with (Qfloor 0). apply Qfloor_resp_le.
    assert (0 <= u * scale digits)%Q by (apply Qmult_le_0_compat; lra).
    lra.
  - apply Qinv_le_0_compat. lra.
Qed.

Lemma roundedMagnitude_below_threshold (u : Q) :
  (u < threshold)%Q -> (roundedMagnitude digits u <= threshold)%Q.
Proof.
  intro H. unfold roundedMagnitude.
  pose proof scale_pos as Hs.
  apply Qle_shift_div_r; [exact Hs |].
  assert (Hprod : (threshold * scale digits
                   == inject_Z (10 ^ 21 * 10 ^ Z.of_nat digits))%Q).
  { unfold threshold, scale. rewrite inject_Z_mult. reflexivity. }
  rewrite Hprod. rewrite <- Zle_Qle.
  set (N := (10 ^ 21 * 10 ^ Z.of_nat digits)%Z) in *.
  destruct (Z.le_gt_cases (Qfloor (u * scale digits + (1 # 2))) N)
    as [Hle | Hgt]; [exact Hle | exfalso].
  assert (HN : (inject_Z (N + 1)
                <= inject_Z (Qfloor (u * scale digits + (1 # 2))))%Q)
    by (rewrite <- Zle_Qle; lia).
  pose proof (Qfloor_le (u * scale digits + (1 # 2))) as Hfl.
  rewrite inject_Z_plus in HN. rewrite <- Hprod in HN.
  assert (u * scale digits < threshold * scale digits)%Q
    by (apply Qmult_lt_r; assumption).
  change (inject_Z 1) with 1%Q in HN. lra.
Qed.

Lemma roundQ_monotone (a b : Q) :
  (a <= b)%Q -> (roundQ digits a <= roundQ digits b)%Q.
Proof.
  intro Hab. unfold roundQ.
  pose proof (roundedMagnitude_nonneg (Qabs a) (Qabs_nonneg a)) as Hga.
  pose proof (roundedMagnitude_nonneg (Qabs b) (Qabs_nonneg b)) as Hgb.
  assert (HT : (0 < threshold)%Q) by reflexivity.
  destruct (Qle_bool threshold (Qabs a)) eqn:Ta,
           (Qle_bool threshold (Qabs b)) eqn:Tb;
    [exact Hab | | |].
  - apply Qle_bool_iff in Ta.
    assert (Tb' : (Qabs b < threshold)%Q).
    { apply Qnot_le_lt. intro H. apply Qle_bool_iff in H. congruence. }
    pose proof (roundedMagnitude_below_threshold (Qabs b) Tb') as Hb.
    destruct (Qlt_le_dec a 0) as [Ha | Ha].
    + rewrite (Qabs_neg a) in Ta by lra.
      destruct (Qle_bool 0 b); lra.
    + rewrite (Qabs_pos a) in Ta by exact Ha.
      rewrite (Qabs_pos b) in Tb' by lra. lra.
  - apply Qle_bool_iff in Tb.
    assert (Ta' : (Qabs a < threshold)%Q).
    { apply Qnot_le_lt. intro H. apply Qle_bool_iff in H. congruence. }
    pose proof (roundedMagnitude_below_threshold (Qabs a) Ta') as Ha'.
    destruct (Qlt_le_dec b 0) as [Hb | Hb].
    + rewrite (Qabs_neg b) in Tb by lra.
      rewrite (Qabs_neg a) in Ta' by lra. lra.
    + rewrite (Qabs_pos b) in Tb by exact Hb.
      destruct (Qle_bool 0 a); lra.
  - destruct (Qle_bool 0 a) eqn:Sa, (Qle_bool 0 b) eqn:Sb.
    + apply Qle_bool_iff in Sa, Sb. apply roundedMagnitude_monotone.
      rewrite (Qabs_pos a), (Qabs_pos b) by assumption. exact Hab.
    + apply Qle_bool_iff in Sa.
      assert (Sb' : (b < 0)%Q).
      { apply Qnot_le_lt. intro H. apply Qle_bool_iff in H. congruence. }
      lra.
    + lra.
    + assert (Sa' : (a < 0)%Q).
      { apply Qnot_le_lt. intro H. apply Qle_bool_iff in H. congruence. }
      assert (Sb' : (b < 0)%Q).
      { apply Qnot_le_lt. intro H. apply Qle_bool_iff in H. congruence. }
      apply Qopp_le_compat. apply roundedMagnitude_monotone.
      rewrite (Qabs_neg a), (Qabs_neg b) by lra. lra.
Qed.

Lemma toFixed_Fin (q : Qc) :
  exists q' : Qc,
    toFixed digits (Fin q) = Fin q' /\ (q' == roundQ digits q)%Q.
Proof.
  unfold toFixed, roundQ, roundedMagnitude, scale, threshold.
  destruct (Qle_bool (inject_Z (10 ^ 21)) (Qabs q)).
  - exists q. split; [reflexivity | apply Qeq_refl].
  - destruct (Qle_bool 0 q).
    + eexists. split; [reflexivity |]. cbn [this Q2Qc]. apply Qred_correct.
    + eexists. split; [reflexivity |].
      cbn [this Q2Qc Qcopp]. rewrite !Qred_correct. apply Qeq_refl.
Qed.

Lemma toFixed_monotone (x y : number) :
  leb x y = true -> leb (toFixed digits x) (toFixed digits y) = true.
Proof.
  destruct x as [a | | |], y as [b | | |]; cbn [leb]; intro H;
    try discriminate; try reflexivity.
  - destruct (toFixed_Fin a) as (a' & -> & Ea).
    destruct (toFixed_Fin b) as (b' & -> & Eb).
    cbn [leb]. apply Qle_bool_iff. rewrite Ea, Eb.
    apply roundQ_monotone. apply Qle_bool_iff. exact H.
  - destruct (toFixed_Fin a) as (a' & -> & _). reflexivity.
  - destruct (toFixed_Fin b) as (b' & Hb & _).
    cbn [toFixed] in *. rewrite Hb. reflexivity.
Qed.

End Rounding.

Lemma leb_antisym (x y : number) :
  leb x y = true -> leb y x = true -> x = y.
Proof.
  destruct x as [a | | |], y as [b | | |]; cbn [leb]; intros H1 H2;
    try discriminate; try reflexivity.
  apply (f_equal Fin). apply Qcle_antisym; apply leb_Fin; assumption.
Qed.

Lemma StronglySorted_weaken {A : Type} (R R' : A -> A -> Prop) (l : list A) :
  (forall a b, R a b -> R' a b) ->
  StronglySorted R l -> StronglySorted R' l.
Proof.
  intros Himp Hs. induction Hs as [| a l Hs IH Ha]; constructor.
  - exact IH.
  - eapply Forall_impl; [| exact Ha]. intros b Hb. apply Himp. exact Hb.
Qed.

(** X21: in the table a row stands before a row rounded from a
    greater or equal percentage only when both store the same rounded
    value: apart from such ties the table is in descending order of the
    exact percentage, when no stored value is [NaN]. *)
Theorem table_order_reflects_deltaPercent
    (filteredData : list PriceData) (dcaClassicWallet : number)
    (buyFrequencyInHours : nat) (dcaAmount : number)
    (longDurationInHours : nat) (rows : list Row) :
  simulateEveryLeverages filteredData dcaClassicWallet buyFrequencyInHours
                         dcaAmount longDurationInHours = Returns rows ->
  Forall numeric rows ->
  StronglySorted roundsAlikeWhenOutOfOrder rows.
Proof.
  intros H Hnum. apply sweep_Returns_inv in H.
  destruct H as (unsorted & _ & ->).
  apply (StronglySorted_weaken ranksBefore).
  - intros r1 r2 Hr d1 d2 E1 E2 Hd.
    apply leb_antisym; [| exact Hr].
    rewrite E1, E2. apply toFixed_monotone. exact Hd.
  - apply sortRows_sorted.
    eapply Permutation_Forall; [| exact Hnum].
    apply Permutation_sym, sortRows_Permutation.
Qed.

Lemma table_order_reflects_deltaPercent_witness :
  simulateEveryLeverages rankSeries rankBaseline 1 (num 100) 1
  = Returns rankTable
  /\ Forall numeric rankTable
  /\ StronglySorted roundsAlikeWhenOutOfOrder rankTable.
Proof.
  split; [exact rank_sweep |]. split; [exact rank_table_numeric |].
  exact (table_order_reflects_deltaPercent rankSeries rankBaseline 1
           (num 100) 1 rankTable rank_sweep rank_table_numeric).
Defined.

(** ** The earlier engine *)

Lemma leb_NaN_r (x : number) : leb x NaN = false.
Proof. destruct x; reflexivity. Qed.

Lemma legacy_monitor_beyond data lp pp remaining :
  forall j st,
    length data <= j ->
    exists t,
      Legacy.monitor data lp pp remaining j st
      = Returns (mkFlags false false, t)
      /\ liquidationsCount t = liquidationsCount st
      /\ takeProfitsCount t = takeProfitsCount st
      /\ closedPositionsCount t = closedPositionsCount st
      /\ wallet t = wallet st.
Proof.
  induction remaining as [| remaining IH]; intros j st Hj.
  - exists st. repeat split.
  - cbn [Legacy.monitor].
    assert (Hn : nth_error data j = None) by (apply nth_error_None; exact Hj).
    rewrite Hn. cbn [Legacy.optional Legacy.toNumber leb].
    unfold geb. rewrite leb_NaN_r.
    destruct (IH (S j) (logRead j (logRead j st))) as (t & Ht & H1 & H2 & H3 & H4);
      [lia |].
    exists t. split; [exact Ht |]. cbn in *. repeat split; assumption.
Qed.

Lemma legacy_monitor_follows data lp pp remaining :
  forall j s s',
    match monitor data lp pp true remaining j s' with
    | Returns (fl, t') =>
        exists t,
          Legacy.monitor data lp pp remaining j s = Returns (fl, t)
          /\ liquidationsCount t + liquidationsCount s'
             = liquidationsCount t' + liquidationsCount s
          /\ takeProfitsCount t + takeProfitsCount s'
             = takeProfitsCount t' + takeProfitsCount s
          /\ closedPositionsCount t = closedPositionsCount s
          /\ closedPositionsCount t' = closedPositionsCount s'
          /\ wallet t = wallet s /\ wallet t' = wallet s'
    | Throws _ =>
        length data < j + remaining
        /\ exists t,
             Legacy.monitor data lp pp remaining j s
             = Returns (mkFlags false false, t)
             /\ liquidationsCount t = liquidationsCount s
             /\ takeProfitsCount t = takeProfitsCount s
             /\ closedPositionsCount t = closedPositionsCount s
             /\ wallet t = wallet s
    | Diverges => False
    end.
Proof.
  induction remaining as [| remaining IH]; intros j s s'.
  - cbn. exists s. repeat split; lia.
  - cbn [monitor Legacy.monitor].
    destruct (nth_error data j) as [c |] eqn:Hc.
    + rewrite isLiquidated_Some, isProfitTaken_Some. cbn [bind].
      cbn [Legacy.optional Legacy.toNumber].
      unfold breachesLiquidation, reachesProfitLimit.
      destruct (leb (low c) lp).
      { eexists. split; [reflexivity |]. cbn. repeat split; lia. }
      destruct (geb (high c) pp).
      { eexists. split; [reflexivity |]. cbn. repeat split; lia. }
      specialize (IH (S j) (logRead j (logRead j s)) (logRead j (logRead j s'))).
      destruct (monitor data lp pp true remaining (S j)
                        (logRead j (logRead j s'))) as [[fl t'] | e |].
      * destruct IH as (t & Ht & H1 & H2 & H3 & H4 & H5 & H6).
        exists t. split; [exact Ht |]. cbn in *. repeat split; assumption.
      * destruct IH as (Hlen & t & Ht & H1 & H2 & H3 & H4).
        split; [lia |].
        exists t. split; [exact Ht |]. cbn in *. repeat split; assumption.
      * exact IH.
    + rewrite isLiquidated_None. cbn [bind].
      pose proof Hc as Hn. apply nth_error_None in Hc.
      split; [lia |].
      pose proof (legacy_monitor_beyond data lp pp (S remaining) j s Hc) as H.
      cbn [Legacy.monitor] in H. rewrite Hn in H. exact H.
Qed.

Lemma legacy_trade_unfold data buyAmount dur leverage pip i st :
  Legacy.trade data buyAmount dur leverage pip i st
  = (entryPrice <- prop open (nth_error data i) ;;
     r <- Legacy.monitor data
            (calculateLiquidationPrice entryPrice leverage true)
            (calculateProfitLimit entryPrice pip leverage true)
            dur (i + 1) (logRead i st) ;;
     Legacy.settle data buyAmount entryPrice
            (div (mul buyAmount leverage) entryPrice)
            (calculateProfitLimit entryPrice pip leverage true)
            (i + dur) (fst r) (snd r)).
Proof.
  unfold Legacy.trade. replace (i + dur - i) with dur by lia. reflexivity.
Qed.

Lemma legacy_trade_follows data buyAmount dur leverage pip i s s' :
  sameCounts s s' ->
  sameOutcome (Legacy.trade data buyAmount dur leverage pip i s)
              (trade data buyAmount dur leverage pip true i s').
Proof.
  intros (Rl & Rt & Rc & Rw).
  rewrite legacy_trade_unfold, trade_unfold.
  destruct (nth_error data i) as [entry |]; cbn [prop bind]; [| exact I].
  set (e := open entry).
  set (lp := calculateLiquidationPrice e leverage true).
  set (pp := calculateProfitLimit e pip leverage true).
  set (b := div (mul buyAmount leverage) e).
  pose proof (legacy_monitor_follows data lp pp dur (i + 1)
                (logRead i s) (logRead i s')) as Hm.
  destruct (monitor data lp pp true dur (i + 1) (logRead i s'))
    as [[fl t'] | err |] eqn:Hcur.
  - destruct Hm as (t & Ht & H1 & H2 & H3 & H4 & H5 & H6).
    rewrite Ht. cbn [bind fst snd]. cbn in H1, H2, H3, H4, H5, H6.
    apply monitor_Returns_inv in Hcur. destruct Hcur as (_ & _ & Hcases).
    destruct Hcases as [(-> & _) | [(-> & _) | (-> & _)]].
    + cbn. unfold sameCounts. split; [lia |]. split; [lia |]. split; [lia |].
      intro Hz. rewrite H5, H6. apply Rw. lia.
    + unfold Legacy.settle, settle, calculateExitSoldInUSD.
      cbn [liquidated profitTaken negb andb bind].
      destruct (nth_error data (i + dur)) as [c |]; cbn [prop bind]; [| exact I].
      clearbody b pp lp e. cbn [sameOutcome]. unfold sameCounts. simpl.
      split; [lia |]. split; [lia |]. split; [lia |].
      intro Hz. rewrite H5, H6, Rw by lia. reflexivity.
    + unfold Legacy.settle, settle, calculateExitSoldInUSD.
      cbn [liquidated profitTaken negb andb bind].
      destruct (nth_error data (i + dur)) as [c |]; cbn [prop bind]; [| exact I].
      clearbody b pp lp e. cbn [sameOutcome]. unfold sameCounts. simpl.
      split; [lia |]. split; [lia |]. split; [lia |].
      intro Hz. lia.
  - destruct Hm as (Hlen & t & Ht & _).
    rewrite Ht. cbn [bind fst snd].
    unfold Legacy.settle. cbn [liquidated profitTaken negb andb].
    assert (Hn : nth_error data (i + dur) = None)
      by (apply nth_error_None; lia).
    rewrite Hn. exact I.
  - contradiction.
Qed.

Lemma legacy_entries_follow data freq buyAmount dur leverage pip fuel :
  forall i s s',
    sameCounts s s' ->
    sameOutcome
      (Legacy.entries fuel data freq buyAmount dur leverage pip i s)
      (entries fuel data freq buyAmount dur leverage pip true i s').
Proof.
  induction fuel as [| fuel IH]; intros i s s' R; [exact I |].
  cbn [Legacy.entries entries].
  destruct (i + freq <? length data); [| exact R].
  pose proof (legacy_trade_follows data buyAmount dur leverage pip i s s' R)
    as Ht.
  destruct (Legacy.trade data buyAmount dur leverage pip i s) as [t | |],
           (trade data buyAmount dur leverage pip true i s') as [t' | |];
    cbn [bind]; try contradiction; try exact I.
  apply IH. exact Ht.
Qed.

(** X22: the earlier engine of [index.ts] and the current one run
    long agree on every input: both return, with the same three counts and,
    as long as no trade time-expired, the same wallet; or both throw; or
    both diverge.  (A time-expired position is sold at the open of the
    exit bar by the earlier engine and at its close by the current one.) *)
Theorem legacy_engine_agrees
    (data : list PriceData) (buyFrequencyInHours : nat) (buyAmount : number)
    (longDurationHours : nat) (leverage profitInPercent : number) :
  sameOutcome
    (Legacy.dcaWithLeverage data buyFrequencyInHours buyAmount
                            longDurationHours leverage profitInPercent)
    (dcaWithLeverage data buyFrequencyInHours buyAmount longDurationHours
                     leverage profitInPercent true).
Proof.
  unfold Legacy.dcaWithLeverage, dcaWithLeverage.
  apply legacy_entries_follow.
  repeat split.
Qed.

(** ** Filtering the series *)

Lemma filter_all {A : Type} (f : A -> bool) (l : list A) :
  (forall x, In x l -> f x = true) -> filter f l = l.
Proof.
  induction l as [| a l IH]; intro H; [reflexivity |].
  cbn [filter]. rewrite (H a) by (left; reflexivity).
  f_equal. apply IH. intros x Hx. apply H. right. exact Hx.
Qed.

(** X23: when the start-time test, once passed by a bar, is passed
    by every later bar (as on a series in time order), the filtered series
    is a tail of the series: the bars it keeps are contiguous, every bar
    before them fails the test and every bar kept passes it. *)
Theorem filtered_series_is_a_tail (keep : number -> bool)
    (data : list PriceData) :
  passesFromSomeBarOn keep data ->
  exists k,
    filterDataByDateAndHour keep data = skipn k data
    /\ Forall (fun c => keep (timestamp c) = false) (firstn k data)
    /\ Forall (fun c => keep (timestamp c) = true) (skipn k data).
Proof.
  unfold filterDataByDateAndHour.
  induction data as [| c data IH]; intro Hmono.
  - exists 0. repeat split; constructor.
  - destruct (keep (timestamp c)) eqn:Hc.
    + exists 0.
      assert (Hall : forall x, In x (c :: data) ->
                               keep (timestamp x) = true).
      { intros x Hx. apply In_nth_error in Hx. destruct Hx as (j & Hj).
        apply (Hmono 0 j c x); [lia | reflexivity | exact Hj | exact Hc]. }
      cbn [skipn firstn]. split; [| split].
      * apply filter_all. exact Hall.
      * constructor.
      * apply Forall_forall. exact Hall.
    + destruct IH as (k & Hk & Hfirst & Hlast).
      { intros i j ci cj Hij Hi Hj. apply (Hmono (S i) (S j)); [lia | |];
          assumption. }
      exists (S k). cbn [filter skipn firstn]. rewrite Hc.
      split; [exact Hk |]. split; [| exact Hlast].
      constructor; assumption.
Qed.

Lemma filtered_series_is_a_tail_witness :
  passesFromSomeBarOn fromSecondBar stampedSeries
  /\ exists k,
       filterDataByDateAndHour fromSecondBar stampedSeries
       = skipn k stampedSeries
       /\ Forall (fun c => fromSecondBar (timestamp c) = false)
                 (firstn k stampedSeries)
       /\ Forall (fun c => fromSecondBar (timestamp c) = true)
                 (skipn k stampedSeries).
Proof.
  assert (Hm : passesFromSomeBarOn fromSecondBar stampedSeries).
  { intros i j ci cj Hij Hi Hj Hk.
    destruct i as [| [| [| i]]]; simpl in Hi;
      try (destruct i; discriminate Hi);
      inversion Hi; subst ci; try discriminate Hk;
      destruct j as [| [| [| j]]]; simpl in Hj;
      try (destruct j; discriminate Hj);
      inversion Hj; subst cj; try reflexivity; lia. }
  split; [exact Hm |].
  exact (filtered_series_is_a_tail fromSecondBar stampedSeries Hm).
Defined.
